(** * movies API: authentication, authorization and optimistic concurrency

    A shallow embedding of the Go sources of the movies API
    (packages [validator], [data] and [main]) together with the
    properties established about them.

    Conventions of the embedding.
    - Go [string] and [[]byte] are Rocq [string] (sequences of bytes).
    - Go [int], [int32] values never take part in Go-side arithmetic in
      the embedded functions; they are carried as [Z].
    - [time.Time] is an instant on an integer time line ([Z]).
    - A Go [map[string]T] is a [gmap string T].
    - A function that may panic returns [Go A]: [Ret a] or [Panic p].
    - The PostgreSQL store is an explicit value of type [DB]; each SQL
      statement of the sources is embedded as the function on tables
      that the statement denotes. *)

From Stdlib Require Import ZArith List Ascii String Bool Lia DecimalString.
From stdpp Require Import base option list gmap strings fin_maps.

Local Open Scope string_scope.
Local Open Scope Z_scope.

(* ===================================================================== *)
(** ** Go runtime: errors, dynamic values, panics *)
(* ===================================================================== *)

(** The error values the program creates or inspects, and the message
    carried by an [*echo.HTTPError].  [ErrNoRows] is [sql.ErrNoRows];
    [errorString msg] is [errors.New(msg)]; [DriverError msg] is any
    other error returned by [database/sql] or the [pq] driver,
    identified by its [Error()] text; [HTTPError] is the value built
    by [echo.NewHTTPError].  A message is a text, the [Error()] text
    of an error, or the [Errors] map of a validator. *)
Inductive error :=
| ErrNoRows
| ErrNoRecordFound
| ErrEditConflict
| ErrDuplicateEmail
| errorString (msg : string)
| DriverError (msg : string)
| HTTPError (code : Z) (message : Message)
with Message :=
| MsgText (s : string)
| MsgErrorOf (e : error)
| MsgErrors (m : gmap string string).

(** A value of static type [interface{}], as far as the program
    distinguishes dynamic types: a string, an error, or a run-time
    error raised by the Go runtime itself. *)
Inductive any :=
| any_string (s : string)
| any_error (e : error)
| any_runtime (msg : string).

(** Outcome of a Go call that may panic. *)
Inductive Go (A : Type) :=
| Ret (a : A)
| Panic (payload : any).
Arguments Ret {A} a.
Arguments Panic {A} payload.

(* ===================================================================== *)
(** ** Package [strings] (the functions the program calls) *)
(* ===================================================================== *)

(** [strings.HasPrefix]. *)
Definition HasPrefix (s prefix : string) : bool := String.prefix prefix s.

Fixpoint drop_bytes (n : nat) (s : string) : string :=
  match n, s with
  | S k, String _ s' => drop_bytes k s'
  | _, _ => s
  end.

(** [strings.TrimPrefix]. *)
Definition TrimPrefix (s prefix : string) : string :=
  if HasPrefix s prefix then drop_bytes (String.length prefix) s else s.

(** [strings.Split] for a separator of one byte, which is the only way
    the program calls it ([" "] and [","]): the result always has one
    more element than the separator has occurrences. *)
Fixpoint Split (s : string) (sep : ascii) : list string :=
  match s with
  | EmptyString => [EmptyString]
  | String a s' =>
      if Ascii.eqb a sep then EmptyString :: Split s' sep
      else match Split s' sep with
           | part :: parts => String a part :: parts
           | [] => [String a EmptyString]
           end
  end.

(* ===================================================================== *)
(** ** Package [validator] *)
(* ===================================================================== *)

Record Validator := mkValidator { Errors : gmap string string }.

(** [validator.New]. *)
Definition New : Validator := {| Errors := ∅ |}.

(** [Validator.Valid]: [len(v.Errors) == 0]. *)
Definition Valid (v : Validator) : bool := Nat.eqb (size (Errors v)) 0.

(** [Validator.AddError]: only the first message for a key is kept. *)
Definition AddError (v : Validator) (key message : string) : Validator :=
  match Errors v !! key with
  | Some _ => v
  | None => {| Errors := <[key := message]> (Errors v) |}
  end.

(** [Validator.Check]. *)
Definition Check (v : Validator) (ok : bool) (key message : string) : Validator :=
  if negb ok then AddError v key message else v.

(** [validator.In], at type [string]. *)
Fixpoint In_ (value : string) (list : list string) : bool :=
  match list with
  | [] => false
  | item :: rest => if String.eqb item value then true else In_ value rest
  end.

(** [validator.Unique], at type [string]: the values are collected in a
    set and the two sizes compared. *)
Definition Unique (values : list string) : bool :=
  let uniqueValues : gset string := list_to_set values in
  Nat.eqb (length values) (size uniqueValues).

(* ===================================================================== *)
(** ** Package [data]: filters *)
(* ===================================================================== *)

Record Filter := mkFilter {
  Page : Z;
  PageSize : Z;
  Sort : string;
  SortSafeList : list string
}.

(** [data.ValidateFilters].  The first check compares [PageSize], not
    [Page], with the upper bound, as the source does. *)
Definition ValidateFilters (v : Validator) (filter : Filter) : Validator :=
  let v := Check v ((1 <=? Page filter) && (PageSize filter <=? 10000000))
             "page" "page must be between 1 and 10000000" in
  let v := Check v ((1 <=? PageSize filter) && (PageSize filter <=? 100))
             "page_size" "page size must be between 1 and 100" in
  Check v (In_ (Sort filter) (SortSafeList filter))
    "page_size" "invalid sort value".

Fixpoint sortColumn_loop (sort : string) (safe : list string) : Go string :=
  match safe with
  | [] => Panic (any_string ("unsafe sort parameter: " +:+ sort))
  | safeValue :: rest =>
      if String.eqb sort safeValue then Ret (TrimPrefix sort "-")
      else sortColumn_loop sort rest
  end.

(** [Filter.sortColumn]. *)
Definition sortColumn (f : Filter) : Go string :=
  sortColumn_loop (Sort f) (SortSafeList f).

(** [Filter.sortDirection]. *)
Definition sortDirection (f : Filter) : string :=
  if HasPrefix (Sort f) "-" then "DESC" else "ASC".

(* ===================================================================== *)
(** ** Package [data]: records *)
(* ===================================================================== *)

(** [data.password]; a nil [hash] and an empty one are both [""]. *)
Record password := mkPassword {
  plaintext : option string;
  hash : string
}.

Module User.
(** [data.User]. *)
Record t := mk {
  ID : Z;
  Name : string;
  Email : string;
  Password : password;
  Activated : bool;
  Version : Z;
  CreatedAt : Z
}.

(** The zero value [User{}]. *)
Definition zero : t :=
  {| ID := 0; Name := ""; Email := "";
     Password := {| plaintext := None; hash := "" |};
     Activated := false; Version := 0; CreatedAt := 0 |}.

Definition set_Activated (b : bool) (u : t) : t :=
  {| ID := ID u; Name := Name u; Email := Email u; Password := Password u;
     Activated := b; Version := Version u; CreatedAt := CreatedAt u |}.

Definition set_Version (v : Z) (u : t) : t :=
  {| ID := ID u; Name := Name u; Email := Email u; Password := Password u;
     Activated := Activated u; Version := v; CreatedAt := CreatedAt u |}.
End User.

Module Movie.
(** [data.Movie].  [Genres] is a slice: [None] is the nil slice. *)
Record t := mk {
  ID : Z;
  Title : string;
  Year : Z;
  Runtime : Z;
  Genres : option (list string);
  CreatedAt : Z;
  Version : Z
}.

Definition set_Title (x : string) (m : t) : t :=
  {| ID := ID m; Title := x; Year := Year m; Runtime := Runtime m;
     Genres := Genres m; CreatedAt := CreatedAt m; Version := Version m |}.

Definition set_Year (x : Z) (m : t) : t :=
  {| ID := ID m; Title := Title m; Year := x; Runtime := Runtime m;
     Genres := Genres m; CreatedAt := CreatedAt m; Version := Version m |}.

Definition set_Runtime (x : Z) (m : t) : t :=
  {| ID := ID m; Title := Title m; Year := Year m; Runtime := x;
     Genres := Genres m; CreatedAt := CreatedAt m; Version := Version m |}.

Definition set_Genres (x : option (list string)) (m : t) : t :=
  {| ID := ID m; Title := Title m; Year := Year m; Runtime := Runtime m;
     Genres := x; CreatedAt := CreatedAt m; Version := Version m |}.

Definition set_Version (x : Z) (m : t) : t :=
  {| ID := ID m; Title := Title m; Year := Year m; Runtime := Runtime m;
     Genres := Genres m; CreatedAt := CreatedAt m; Version := x |}.
End Movie.

#[global] Instance User_inhabited : Inhabited User.t := populate User.zero.

(** A [*data.User]: the address of a [User] variable on the heap. *)
Definition ptr := nat.

(** [var AnonymousUser = &User{}]: the package-level variable is
    initialised once, before any request is served, with the address
    of a fresh [User]; that address is the first cell of the heap. *)
Definition AnonymousUser : ptr := 0%nat.

(** [User.IsAnonymous]: [u == AnonymousUser], a comparison of two
    pointers. *)
Definition IsAnonymous (u : ptr) : bool := Nat.eqb u AnonymousUser.

(** Range of a Go [int32]. *)
Definition int32_ok (z : Z) : bool := (-2147483648 <=? z) && (z <=? 2147483647).

(** [int32(x)] for an [int] [x]. *)
Definition to_int32 (z : Z) : Z := (z + 2147483648) mod 4294967296 - 2147483648.

(** [data.ValidateMovie]; [currentYear] is [time.Now().Year()]. *)
Definition ValidateMovie (currentYear : Z) (v : Validator) (movie : Movie.t) : Validator :=
  let v := Check v (negb (String.eqb (Movie.Title movie) ""))
             "title" "title must be provided" in
  let v := Check v (Nat.leb (String.length (Movie.Title movie)) 500)
             "title" "title should be less than or equal to 500 characters long" in
  let v := Check v (negb (Movie.Year movie =? 0))
             "year" "year must be provided" in
  let v := Check v ((1888 <=? Movie.Year movie) && (Movie.Year movie <=? to_int32 currentYear))
             "year" "year must be between 1888 and the current year" in
  let v := Check v (0 <? Movie.Runtime movie)
             "runtime" "runtime must be provided and a positive integer" in
  let v := Check v (bool_decide (Movie.Genres movie ≠ None))
             "genres" "genres must be provided" in
  let genres := default [] (Movie.Genres movie) in
  let v := Check v (Nat.leb 1 (length genres) && Nat.leb (length genres) 5)
             "genres" "genres most contain at least 1 and no more than 5 items" in
  Check v (Unique genres) "genres" "genres must contain unique items".

(* ===================================================================== *)
(** ** The store: tables and the state of a running request *)
(* ===================================================================== *)

(** Rows of the tables, with the columns the SQL statements of the
    sources name.  The schema itself (column types, keys) is not part
    of the sources: integer cells are unbounded here and the range of
    the Go variable they are scanned into is checked by [Scan]. *)
Record users_row := mk_users_row {
  users_id : Z;
  users_created_at : Z;
  users_name : string;
  users_email : string;
  users_password_hash : string;
  users_activated : bool;
  users_version : Z
}.

Record tokens_row := mk_tokens_row {
  tokens_hash : string;
  tokens_user_id : Z;
  tokens_expiry : Z;
  tokens_scope : string
}.

Record movies_row := mk_movies_row {
  movies_id : Z;
  movies_created_at : Z;
  movies_title : string;
  movies_year : Z;
  movies_runtime : Z;
  movies_genres : option (list string);
  movies_version : Z
}.

(** The database.  [grants] is the permission-grant pair set of the
    spec.  [fault], when set, is a failure of the connection or an
    elapsed deadline: every statement then fails with that driver
    error and changes nothing. *)
Record DB := mk_DB {
  users : list users_row;
  tokens : list tokens_row;
  movies : list movies_row;
  grants : list (Z * string);
  fault : option string
}.

Definition set_users (x : list users_row) (d : DB) : DB :=
  {| users := x; tokens := tokens d; movies := movies d;
     grants := grants d; fault := fault d |}.

Definition set_tokens (x : list tokens_row) (d : DB) : DB :=
  {| users := users d; tokens := x; movies := movies d;
     grants := grants d; fault := fault d |}.

Definition set_movies (x : list movies_row) (d : DB) : DB :=
  {| users := users d; tokens := tokens d; movies := x;
     grants := grants d; fault := fault d |}.

(** The statements a request sends to the store, in the order sent. *)
Inductive Query :=
| Q_Movies_Get (id : Z)
| Q_Movies_Update (id version : Z)
| Q_Users_Update (id version : Z)
| Q_Users_GetByToken (scope : string)
| Q_Permissions_GetAllForUser (id : Z)
| Q_Tokens_DeleteAllForUser (scope : string) (id : Z).

(** A value put in a JSON envelope. *)
Inductive Value :=
| V_string (s : string)
| V_message (m : Message)
| V_movie (m : Movie.t)
| V_user (u : User.t).

(** The [echo.Context] of the request: the request headers, the
    key/value store of [c.Set] and [c.Get] (the program only stores
    [*data.User] values in it), the response headers and the response
    written by [c.JSON], if any. *)
Record Context := mk_Context {
  request_header : gmap string (list string);
  store : gmap string ptr;
  response_header : gmap string (list string);
  response : option (Z * gmap string Value)
}.

(** The state a request runs in: the heap of [User] variables, the
    database, the clock read by [time.Now], the request's context, the
    queries sent so far, the lines written by [app.logger.Error] and
    the counter of [app.wg]. *)
Record State := mk_State {
  heap : list User.t;
  db : DB;
  clock : Z;
  ctx : Context;
  queries : list Query;
  logger : list string;
  wg : Z
}.

Definition set_heap (x : list User.t) (st : State) : State :=
  {| heap := x; db := db st; clock := clock st; ctx := ctx st;
     queries := queries st; logger := logger st; wg := wg st |}.

Definition set_db (x : DB) (st : State) : State :=
  {| heap := heap st; db := x; clock := clock st; ctx := ctx st;
     queries := queries st; logger := logger st; wg := wg st |}.

Definition set_ctx (x : Context) (st : State) : State :=
  {| heap := heap st; db := db st; clock := clock st; ctx := x;
     queries := queries st; logger := logger st; wg := wg st |}.

Definition send (q : Query) (st : State) : State :=
  {| heap := heap st; db := db st; clock := clock st; ctx := ctx st;
     queries := queries st ++ [q]; logger := logger st; wg := wg st |}.

Definition logger_Error (msg : string) (st : State) : State :=
  {| heap := heap st; db := db st; clock := clock st; ctx := ctx st;
     queries := queries st; logger := logger st ++ [msg]; wg := wg st |}.

Definition wg_Add (n : Z) (st : State) : State :=
  {| heap := heap st; db := db st; clock := clock st; ctx := ctx st;
     queries := queries st; logger := logger st; wg := wg st + n |}.

(** [&user] for a local variable [user] that escapes: a fresh heap
    cell holding its value. *)
Definition alloc (u : User.t) (st : State) : ptr * State :=
  (length (heap st), set_heap (heap st ++ [u]) st).

(** [*p] and [*p = u]. *)
Definition load (p : ptr) (st : State) : User.t := heap st !!! p.
Definition store_user (p : ptr) (u : User.t) (st : State) : State :=
  set_heap (<[p := u]> (heap st)) st.

(** A value or an error: the pair [(x, err)] a Go function returns,
    of which exactly one component is meaningful. *)
Inductive result (A : Type) :=
| ok (a : A)
| fail (e : error).
Arguments ok {A} a.
Arguments fail {A} e.

(** [DB.QueryRowContext(...).Scan(...)] on the rows a statement
    returns: the first row, or [sql.ErrNoRows] when there is none. *)
Definition QueryRow {A : Type} (rows : result (list A)) : result A :=
  match rows with
  | fail e => fail e
  | ok [] => fail ErrNoRows
  | ok (r :: _) => ok r
  end.

(** Every statement fails when the connection does. *)
Definition statement {A : Type} (d : DB) (run : A * DB) : result A * DB :=
  match fault d with
  | Some msg => (fail (DriverError msg), d)
  | None => (ok (fst run), snd run)
  end.

(* ===================================================================== *)
(** ** Package [data]: [MovieModel] *)
(* ===================================================================== *)

(** [SELECT id, created_at, title, year, runtime, genres, version
     FROM movies WHERE id = $1]. *)
Definition select_movie (id : Z) (d : DB) : result (list movies_row) * DB :=
  statement d (List.filter (fun r => movies_id r =? id) (movies d), d).

(** [Scan] of a row of [movies] into the fields of a [Movie]: [Year],
    [Runtime] and [Version] are [int32] and [Scan] fails on a cell
    outside their range. *)
Definition Scan_movie (r : movies_row) : result Movie.t :=
  if int32_ok (movies_year r) && int32_ok (movies_runtime r)
     && int32_ok (movies_version r)
  then ok {| Movie.ID := movies_id r; Movie.Title := movies_title r;
             Movie.Year := movies_year r; Movie.Runtime := movies_runtime r;
             Movie.Genres := movies_genres r;
             Movie.CreatedAt := movies_created_at r;
             Movie.Version := movies_version r |}
  else fail (DriverError "sql: Scan error: value out of range").

(** [MovieModel.Get].  The returned [*Movie] is used by one caller at
    a time, so it is passed by value. *)
Definition MovieModel_Get (id : Z) (st : State) : result Movie.t * State :=
  if id <? 1 then (fail ErrNoRecordFound, st)
  else
    let st := send (Q_Movies_Get id) st in
    match QueryRow (fst (select_movie id (db st))) with
    | ok r =>
        match Scan_movie r with
        | ok movie => (ok movie, st)
        | fail err => (fail err, st)
        end
    | fail ErrNoRows => (fail ErrNoRecordFound, st)
    | fail err => (fail err, st)
    end.

(** The row selected by [WHERE id = $5 AND version = $6]. *)
Definition movie_hit (id version : Z) (r : movies_row) : bool :=
  (movies_id r =? id) && (movies_version r =? version).

(** [SET title = $1, year = $2, runtime = $3, genres = $4,
     version = version + 1]. *)
Definition movie_set (title : string) (year runtime : Z)
    (genres : option (list string)) (r : movies_row) : movies_row :=
  {| movies_id := movies_id r; movies_created_at := movies_created_at r;
     movies_title := title; movies_year := year; movies_runtime := runtime;
     movies_genres := genres; movies_version := movies_version r + 1 |}.

(** [UPDATE movies SET ... WHERE id = $5 AND version = $6
     RETURNING version]: one statement, which rewrites the selected
     rows and returns their new versions. *)
Definition update_movie (title : string) (year runtime : Z)
    (genres : option (list string)) (id version : Z) (d : DB)
    : result (list Z) * DB :=
  statement d
    (map (fun r => movies_version r + 1)
         (List.filter (movie_hit id version) (movies d)),
     set_movies
       (map (fun r => if movie_hit id version r
                      then movie_set title year runtime genres r else r)
            (movies d)) d).

(** [MovieModel.Update].  The [*Movie] argument is returned with the
    [Version] field as [Scan] left it. *)
Definition MovieModel_Update (movie : Movie.t) (st : State)
    : (Movie.t * option error) * State :=
  let st := send (Q_Movies_Update (Movie.ID movie) (Movie.Version movie)) st in
  let '(rows, d) :=
    update_movie (Movie.Title movie) (Movie.Year movie) (Movie.Runtime movie)
      (Movie.Genres movie) (Movie.ID movie) (Movie.Version movie) (db st) in
  let st := set_db d st in
  match QueryRow rows with
  | ok version =>
      if int32_ok version then (Movie.set_Version version movie, None, st)
      else (movie, Some (DriverError "sql: Scan error: value out of range"), st)
  | fail ErrNoRows => (movie, Some ErrEditConflict, st)
  | fail err => (movie, Some err, st)
  end.

(* ===================================================================== *)
(** ** Package [data]: [UserModel] *)
(* ===================================================================== *)

(** [Scan] of a row of [users] into the fields of a [User];
    [Password.plaintext] is not a column and stays nil. *)
Definition Scan_user (r : users_row) : User.t :=
  {| User.ID := users_id r; User.Name := users_name r;
     User.Email := users_email r;
     User.Password := {| plaintext := None; hash := users_password_hash r |};
     User.Activated := users_activated r; User.Version := users_version r;
     User.CreatedAt := users_created_at r |}.

Definition user_hit (id version : Z) (r : users_row) : bool :=
  (users_id r =? id) && (users_version r =? version).

(** [SET name = $1, email = $2, password_hash = $3, activated = $4,
     version = version + 1]. *)
Definition user_set (name email password_hash : string) (activated : bool)
    (r : users_row) : users_row :=
  {| users_id := users_id r; users_created_at := users_created_at r;
     users_name := name; users_email := email;
     users_password_hash := password_hash; users_activated := activated;
     users_version := users_version r + 1 |}.

(** The text of the driver's error for the unique constraint on
    [users.email]. *)
Definition users_email_key_violation : string :=
  "pq: duplicate key value violates unique constraint "
  +:+ String "034" ("users_email_key" +:+ String "034" "").

(** [UPDATE users SET ... WHERE id = $5 AND version = $6
     RETURNING version].  The statement is rejected, and changes
     nothing, when a rewritten row would share its email with another
     row. *)
Definition update_user (name email password_hash : string) (activated : bool)
    (id version : Z) (d : DB) : result (list Z) * DB :=
  let updated :=
    map (fun r => if user_hit id version r
                  then user_set name email password_hash activated r else r)
        (users d) in
  match fault d with
  | Some msg => (fail (DriverError msg), d)
  | None =>
      if existsb (user_hit id version) (users d)
         && Nat.ltb 1 (length (List.filter
                         (fun r => String.eqb (users_email r) email) updated))
      then (fail (DriverError users_email_key_violation), d)
      else (ok (map (fun r => users_version r + 1)
                    (List.filter (user_hit id version) (users d))),
            set_users updated d)
  end.

(** [UserModel.Update]. *)
Definition UserModel_Update (user : ptr) (st : State) : option error * State :=
  let u := load user st in
  let st := send (Q_Users_Update (User.ID u) (User.Version u)) st in
  let '(rows, d) :=
    update_user (User.Name u) (User.Email u) (hash (User.Password u))
      (User.Activated u) (User.ID u) (User.Version u) (db st) in
  let st := set_db d st in
  match QueryRow rows with
  | ok version => (None, store_user user (User.set_Version version u) st)
  | fail ErrNoRows => (Some ErrEditConflict, st)
  | fail (DriverError msg) =>
      if String.eqb msg users_email_key_violation
      then (Some ErrDuplicateEmail, st)
      else (Some (DriverError msg), st)
  | fail err => (Some err, st)
  end.

(** [SELECT users.id, ... FROM users INNER JOIN tokens
     ON users.id = tokens.user_id
     WHERE tokens.hash = $1 AND tokens.scope = $2 AND tokens.expiry > $3]. *)
Definition select_user_by_token (tokenHash scope : string) (now : Z) (d : DB)
    : result (list users_row) * DB :=
  statement d
    (flat_map
       (fun u =>
          flat_map
            (fun t =>
               if (users_id u =? tokens_user_id t)
                  && String.eqb (tokens_hash t) tokenHash
                  && String.eqb (tokens_scope t) scope
                  && (now <? tokens_expiry t)
               then [u] else [])
            (tokens d))
       (users d),
     d).

(** Modelled from the spec: the scope tags of a token, declared with
    the token model, which is not among the sources; the spec gives
    them as ["activation" | "authentication"]. *)
Definition ScopeActivation : string := "activation".
Definition ScopeAuth : string := "authentication".

(** Modelled from the spec: [TokenModel.DeleteAllForUser], the spec's
    [revokeAllForIdentity(scope, identity-id)], not among the sources:
    "deletes every token of that scope owned by the identity". *)
Definition delete_tokens (scope : string) (userID : Z) (d : DB)
    : result unit * DB :=
  statement d
    (tt,
     set_tokens
       (List.filter
          (fun t => negb (String.eqb (tokens_scope t) scope
                          && (tokens_user_id t =? userID)))
          (tokens d)) d).

Definition TokenModel_DeleteAllForUser (scope : string) (userID : Z)
    (st : State) : option error * State :=
  let st := send (Q_Tokens_DeleteAllForUser scope userID) st in
  let '(r, d) := delete_tokens scope userID (db st) in
  let st := set_db d st in
  match r with
  | ok _ => (None, st)
  | fail err => (Some err, st)
  end.

(** Modelled from the spec: [PermissionModel.GetAllForUser], the spec's
    [allGrants(identity-id) -> set<string>] over the permission-grant
    pair set, not among the sources. *)
Definition select_grants (userID : Z) (d : DB) : result (gset string) * DB :=
  statement d
    (list_to_set
       (map snd (List.filter (fun g => fst g =? userID) (grants d))),
     d).

Definition PermissionModel_GetAllForUser (userID : Z) (st : State)
    : result (gset string) * State :=
  let st := send (Q_Permissions_GetAllForUser userID) st in
  (fst (select_grants userID (db st)), st).

(** Modelled from the spec: [Permissions.Include], the spec's
    [includes(grants, code) -> bool], "pure set membership", not among
    the sources. *)
Definition Include (permissions : gset string) (code : string) : bool :=
  bool_decide (code ∈ permissions).

(* ===================================================================== *)
(** ** Package [main]: the request context *)
(* ===================================================================== *)

(** [http.Header.Get], [Add] and [Set]. *)
Definition Header_Get (h : gmap string (list string)) (key : string) : string :=
  match h !! key with
  | Some (value :: _) => value
  | _ => ""
  end.

Definition Header_Add (key value : string) (h : gmap string (list string))
    : gmap string (list string) :=
  <[key := (default [] (h !! key) ++ [value])%list]> h.

Definition Header_Set (key value : string) (h : gmap string (list string))
    : gmap string (list string) :=
  <[key := [value]]> h.

Definition response_Header_Add (key value : string) (st : State) : State :=
  set_ctx {| request_header := request_header (ctx st);
             store := store (ctx st);
             response_header := Header_Add key value (response_header (ctx st));
             response := response (ctx st) |} st.

Definition response_Header_Set (key value : string) (st : State) : State :=
  set_ctx {| request_header := request_header (ctx st);
             store := store (ctx st);
             response_header := Header_Set key value (response_header (ctx st));
             response := response (ctx st) |} st.

(** [c.Set(key, user)]. *)
Definition c_Set (key : string) (user : ptr) (st : State) : State :=
  set_ctx {| request_header := request_header (ctx st);
             store := <[key := user]> (store (ctx st));
             response_header := response_header (ctx st);
             response := response (ctx st) |} st.

(** [c.Get("user")] asserted to be a [*data.User]: the type assertion
    panics when nothing was stored under the key. *)
Definition c_Get_user (st : State) : Go ptr :=
  match store (ctx st) !! "user" with
  | Some user => Ret user
  | None =>
      Panic (any_runtime
               "interface conversion: interface {} is nil, not *data.User")
  end.

(** [c.JSON(code, body)]. *)
Definition c_JSON (code : Z) (body : gmap string Value) (st : State) : State :=
  set_ctx {| request_header := request_header (ctx st);
             store := store (ctx st);
             response_header := response_header (ctx st);
             response := Some (code, body) |} st.

(** [echo.HandlerFunc]: a handler runs on the state of the request and
    returns an error, nil, or panics. *)
Definition HandlerFunc : Type := State -> Go (option error) * State.

(** [return echo.NewHTTPError(code, message)]. *)
Definition NewHTTPError (code : Z) (message : Message) (st : State)
    : Go (option error) * State :=
  (Ret (Some (HTTPError code message)), st).

(** [customHTTPErrorHandler], which echo calls with the error a
    handler chain returned. *)
Definition customHTTPErrorHandler (err : error) (st : State) : State :=
  let '(status, message) :=
    match err with
    | HTTPError code message => (code, message)
    | _ => (500, MsgText
              "the server encountered a problem and could not process your request")
    end in
  match response (ctx st) with
  | Some _ => st
  | None => c_JSON status {[ "error" := V_message message ]} st
  end.

(** What echo does with the outcome of the handler chain of a request:
    a returned error goes to the error handler. *)
Definition serve (h : HandlerFunc) (st : State) : Go unit * State :=
  match h st with
  | (Ret None, st) => (Ret tt, st)
  | (Ret (Some err), st) => (Ret tt, customHTTPErrorHandler err st)
  | (Panic p, st) => (Panic p, st)
  end.

(** [fmt.Sprintf("/v1/movies/%d", id)]. *)
Definition movie_location (id : Z) : string :=
  "/v1/movies/" +:+ NilZero.string_of_int (Z.to_int id).

(** [application.readIDParam]; [atoi] is what
    [strconv.Atoi(c.Param("id"))] returned. *)
Definition readIDParam (atoi : Z * option error) : result Z :=
  let '(id, err) := atoi in
  if bool_decide (err ≠ None) && (id <? 1)
  then fail (errorString "invalid id parameter")
  else ok id.

(* ===================================================================== *)
(** ** Package [main]: background tasks *)
(* ===================================================================== *)

(** A function run as a task: it may change the state and may panic. *)
Definition Task : Type := State -> Go unit * State.

(** The body of the goroutine started by [application.background]:
    [fn()] runs; then the deferred functions run, last registered
    first.  The first one calls [recover()]; when [fn] panicked it
    logs [err.(string)], a type assertion which itself panics unless
    the payload is a string.  The second one is [app.wg.Done()]. *)
Definition background_goroutine (fn : Task) : Task := fun st =>
  let '(r, st) := fn st in
  let '(r, st) :=
    match r with
    | Ret _ => (Ret tt, st)
    | Panic err =>
        match err with
        | any_string s => (Ret tt, logger_Error s st)
        | any_error _ =>
            (Panic (any_runtime
               "interface conversion: interface {} is error, not string"), st)
        | any_runtime _ =>
            (Panic (any_runtime
               "interface conversion: interface {} is runtime.Error, not string"),
             st)
        end
    end in
  (r, wg_Add (-1) st).

(** [application.background]: [app.wg.Add(1)], then the [go]
    statement, which hands the goroutine to the scheduler. *)
Definition background (fn : Task) (st : State) : Task * State :=
  (background_goroutine fn, wg_Add 1 st).

(** The process after the scheduler ran a goroutine: a panic that
    leaves a goroutine terminates the program. *)
Inductive Process :=
| Running (st : State)
| Crashed (payload : any).

Definition run_goroutine (g : Task) (st : State) : Process :=
  match g st with
  | (Ret _, st) => Running st
  | (Panic p, _) => Crashed p
  end.

(* ===================================================================== *)
(** ** Functions that depend on library code *)
(* ===================================================================== *)

(** The input of [updateMovieHandler] as [c.Bind] fills it: a nil
    pointer or slice is [None]. *)
Record updateMovieInput := mk_updateMovieInput {
  input_Title : option string;
  input_Year : option Z;
  input_Runtime : option Z;
  input_Genres : option (list string)
}.

Section Program.

(** [sha256.Sum256] of the standard library. *)
Variable sha256 : string -> string.

(** [time.Time.Year] of the standard library. *)
Variable Year : Z -> Z.

(** [data.ValidateTokenPlainText], the shape check of a token
    plaintext; it is declared with the token model, which is not among
    the sources.  It records its findings in the validator. *)
Variable ValidateTokenPlainText : Validator -> string -> Validator.

(** [UserModel.GetByToken].  [user] escapes through the returned
    pointer, so it lives in a fresh heap cell. *)
Definition UserModel_GetByToken (scope token : string) (st : State)
    : result ptr * State :=
  let tokenHash := sha256 token in
  let st := send (Q_Users_GetByToken scope) st in
  match QueryRow (fst (select_user_by_token tokenHash scope (clock st) (db st))) with
  | ok r =>
      let '(user, st) := alloc (Scan_user r) st in
      (ok user, st)
  | fail ErrNoRows => (fail ErrNoRecordFound, st)
  | fail err => (fail err, st)
  end.

(** [application.Authenticate]. *)
Definition Authenticate (next : HandlerFunc) : HandlerFunc := fun st =>
  let st := response_Header_Add "Vary" "Authorization" st in
  let authHeader := Header_Get (request_header (ctx st)) "Authorization" in
  if String.eqb authHeader "" then next (c_Set "user" AnonymousUser st)
  else
    match Split authHeader " " with
    | [scheme; token] =>
        if negb (String.eqb scheme "Bearer") then
          NewHTTPError 401 (MsgText "invalid authentication token")
            (response_Header_Set "WWW-Authenticate" "Bearer" st)
        else
          let v := ValidateTokenPlainText New token in
          if negb (Valid v) then
            NewHTTPError 401 (MsgText "invalid authentication token")
              (response_Header_Set "WWW-Authenticate" "Bearer" st)
          else
            let '(r, st) := UserModel_GetByToken ScopeAuth token st in
            match r with
            | fail ErrNoRecordFound =>
                NewHTTPError 401 (MsgText "invalid authentication token")
                  (response_Header_Set "WWW-Authenticate" "Bearer" st)
            | fail err => (Ret (Some err), st)
            | ok user => next (c_Set "user" user st)
            end
    | _ =>
        NewHTTPError 401 (MsgText "invalid authentication token")
          (response_Header_Set "WWW-Authenticate" "Bearer" st)
    end.

(** [application.RequireActivatedUser]. *)
Definition RequireActivatedUser (next : HandlerFunc) : HandlerFunc := fun st =>
  match c_Get_user st with
  | Panic p => (Panic p, st)
  | Ret user =>
      if IsAnonymous user then
        NewHTTPError 401
          (MsgText "you must be autenticated to access this resource") st
      else if negb (User.Activated (load user st)) then
        NewHTTPError 403
          (MsgText "your user account must be activated to access this resource")
          st
      else next st
  end.

(** [application.RequirePermission]. *)
Definition RequirePermission (permission : string) (next : HandlerFunc)
    : HandlerFunc :=
  let fn : HandlerFunc := fun st =>
    match c_Get_user st with
    | Panic p => (Panic p, st)
    | Ret user =>
        let '(r, st) :=
          PermissionModel_GetAllForUser (User.ID (load user st)) st in
        match r with
        | fail err => (Ret (Some err), st)
        | ok permissions =>
            if negb (Include permissions permission) then
              NewHTTPError 403
                (MsgText "you user account doesn't have the necessary permissions to access this resource")
                st
            else next st
        end
    end in
  RequireActivatedUser fn.

(** The four conditional assignments of [updateMovieHandler]. *)
Definition apply_input (input : updateMovieInput) (movie : Movie.t) : Movie.t :=
  let movie := match input_Title input with
               | Some x => Movie.set_Title x movie
               | None => movie
               end in
  let movie := match input_Year input with
               | Some x => Movie.set_Year x movie
               | None => movie
               end in
  let movie := match input_Runtime input with
               | Some x => Movie.set_Runtime x movie
               | None => movie
               end in
  match input_Genres input with
  | Some x => Movie.set_Genres (Some x) movie
  | None => movie
  end.

(** [application.updateMovieHandler].  [atoi] is the result of
    [strconv.Atoi] on the [id] parameter and [bind] the result of
    [c.Bind(&input)].  Requests are served concurrently: [concurrent]
    is what the other requests do to the database between this
    request's read of the movie and its update. *)
Definition updateMovieHandler (atoi : Z * option error)
    (bind : result updateMovieInput) (concurrent : DB -> DB) : HandlerFunc :=
  fun st =>
  match readIDParam atoi with
  | fail err => NewHTTPError 404 (MsgErrorOf err) st
  | ok id =>
      let '(r, st) := MovieModel_Get id st in
      match r with
      | fail ErrNoRecordFound => NewHTTPError 404 (MsgErrorOf ErrNoRecordFound) st
      | fail err => (Ret (Some err), st)
      | ok movie =>
          let st := set_db (concurrent (db st)) st in
          match bind with
          | fail err => NewHTTPError 400 (MsgErrorOf err) st
          | ok input =>
              let movie := apply_input input movie in
              let v := ValidateMovie (Year (clock st)) New movie in
              if negb (Valid v) then NewHTTPError 422 (MsgErrors (Errors v)) st
              else
                let '(movie, err, st) := MovieModel_Update movie st in
                match err with
                | Some ErrEditConflict =>
                    NewHTTPError 409 (MsgErrorOf ErrEditConflict) st
                | Some err => (Ret (Some err), st)
                | None =>
                    let st := response_Header_Set "Location"
                                (movie_location (Movie.ID movie)) st in
                    (Ret None,
                     c_JSON 201
                       {[ "message" := V_string "Movie Updated succussfully";
                          "movie" := V_movie movie ]} st)
                end
          end
      end
  end.

(** [application.activateUserHandler].  [bind] is the result of
    [c.Bind(&input)], the [Token] field of the input on success;
    [concurrent] is what the other requests do to the database between
    this request's read of the user and its update. *)
Definition activateUserHandler (bind : result string) (concurrent : DB -> DB)
    : HandlerFunc :=
  fun st =>
  match bind with
  | fail err => NewHTTPError 400 (MsgErrorOf err) st
  | ok token =>
      let v := ValidateTokenPlainText New token in
      if negb (Valid v) then NewHTTPError 422 (MsgErrors (Errors v)) st
      else
        let '(r, st) := UserModel_GetByToken ScopeActivation token st in
        match r with
        | fail ErrNoRecordFound =>
            let v := AddError v "token" "invalid or expired activation token" in
            NewHTTPError 422 (MsgErrors (Errors v)) st
        | fail err => (Ret (Some err), st)
        | ok user =>
            let st := set_db (concurrent (db st)) st in
            let st := store_user user (User.set_Activated true (load user st)) st in
            let '(err, st) := UserModel_Update user st in
            match err with
            | Some ErrEditConflict =>
                NewHTTPError 409 (MsgErrorOf ErrEditConflict) st
            | Some err => (Ret (Some err), st)
            | None =>
                let '(err, st) :=
                  TokenModel_DeleteAllForUser ScopeActivation
                    (User.ID (load user st)) st in
                match err with
                | Some err => (Ret (Some err), st)
                | None =>
                    (Ret None,
                     c_JSON 200
                       {[ "message" := V_string "User activated successfully";
                          "user" := V_user (load user st) ]} st)
                end
            end
        end
  end.

(** The number of [UPDATE] statements among the queries of a request. *)
Definition is_update (q : Query) : bool :=
  match q with
  | Q_Movies_Update _ _ | Q_Users_Update _ _ => true
  | _ => false
  end.

Definition is_permission_lookup (q : Query) : bool :=
  match q with
  | Q_Permissions_GetAllForUser _ => true
  | _ => false
  end.

(** The status of the response a request ends with. *)
Definition status (st : State) : option Z := fst <$> response (ctx st).

(** The state of the process when it starts serving: the heap holds
    the cell [AnonymousUser] points to and nothing else. *)
Definition heap_initialised (st : State) : Prop := (0 < length (heap st))%nat.

End Program.

(* ===================================================================== *)
(** ** Sample data *)
(* ===================================================================== *)

(** The filter [getMoviesHandler] builds for a request with the given
    [sort] parameter and no paging parameters. *)
Definition getMovies_filter (sort : string) : Filter :=
  {| Page := 1; PageSize := 5; Sort := sort;
     SortSafeList := ["id"; "title"; "year"; "runtime";
                      "-id"; "-title"; "-year"; "-runtime"] |}.

Definition empty_DB : DB :=
  {| users := []; tokens := []; movies := []; grants := []; fault := None |}.

(** A request with the given values of the [Authorization] header. *)
Definition request (authorization : option (list string)) : Context :=
  {| request_header :=
       match authorization with
       | Some values => {[ "Authorization" := values ]}
       | None => ∅
       end;
     store := ∅; response_header := ∅; response := None |}.

(** The state in which a request starts on database [d] at instant
    [now]: the heap holds the cell of [AnonymousUser] only. *)
Definition start (d : DB) (now : Z) (c : Context) : State :=
  {| heap := [User.zero]; db := d; clock := now; ctx := c;
     queries := []; logger := []; wg := 0 |}.

(** A task that panics with an error value, as [panic(err)] does. *)
Definition panicking_task (e : error) : Task :=
  fun st => (Panic (any_error e), st).

(** A stand-in for the hash function and for the shape check, for
    running the program on samples: the digest of a plaintext is the
    text prefixed with ["#"], and a plaintext has the right shape when
    it is not empty. *)
Definition sample_sha256 (s : string) : string := String "#" s.
Definition sample_Year (now : Z) : Z := 2024.
Definition sample_ValidateTokenPlainText (v : Validator) (token : string)
    : Validator :=
  Check v (negb (String.eqb token "")) "token" "must be provided".

(* ===================================================================== *)
(** ** Predicates of the statements *)
(* ===================================================================== *)

(** A token record that validates [token] for [scope] at instant
    [now]: its digest is the hash of the plaintext, its scope is the
    requested one and its expiry lies strictly after [now]. *)
Definition live_token (sha256 : string → string) (scope token : string)
    (now : Z) (t : tokens_row) : bool :=
  String.eqb (tokens_hash t) (sha256 token)
  && String.eqb (tokens_scope t) scope
  && (now <? tokens_expiry t).

(** The digest is a key of the tokens table. *)
Definition digest_is_key (d : DB) : Prop :=
  ∀ t1 t2, t1 ∈ tokens d → t2 ∈ tokens d →
           tokens_hash t1 = tokens_hash t2 → t1 = t2.

(** No movie with this id is stored at this version: the version is
    stale, or the movie is gone. *)
Definition stale_movie (id version : Z) (d : DB) : Prop :=
  ∀ r, r ∈ movies d → movies_id r = id → movies_version r ≠ version.

Definition stale_user (id version : Z) (d : DB) : Prop :=
  ∀ r, r ∈ users d → users_id r = id → users_version r ≠ version.

(** The [UPDATE] statements among a list of queries. *)
Definition updates (qs : list Query) : list Query := List.filter is_update qs.

(** The permission lookups among a list of queries. *)
Definition permission_lookups (qs : list Query) : list Query :=
  List.filter is_permission_lookup qs.

Definition sample_movies_row : movies_row :=
  {| movies_id := 1; movies_created_at := 0; movies_title := "Casablanca";
     movies_year := 1942; movies_runtime := 102;
     movies_genres := Some ["drama"; "romance"]; movies_version := 3 |}.

Definition sample_users_row : users_row :=
  {| users_id := 7; users_created_at := 0; users_name := "Ann";
     users_email := "a@x.com"; users_password_hash := "digest";
     users_activated := false; users_version := 1 |}.

(** Ann's activation token and authentication token, both expiring at
    instant 100. *)
Definition sample_tokens : list tokens_row :=
  [ {| tokens_hash := sample_sha256 "ACTIVATE"; tokens_user_id := 7;
       tokens_expiry := 100; tokens_scope := ScopeActivation |};
    {| tokens_hash := sample_sha256 "SESSION"; tokens_user_id := 7;
       tokens_expiry := 100; tokens_scope := ScopeAuth |} ].

Definition sample_DB : DB :=
  {| users := [sample_users_row]; tokens := sample_tokens;
     movies := [sample_movies_row]; grants := [(7, "movies:read")];
     fault := None |}.

(** The movie of [sample_DB] as a request read it. *)
Definition sample_movie : Movie.t :=
  {| Movie.ID := 1; Movie.Title := "Casablanca"; Movie.Year := 1942;
     Movie.Runtime := 102; Movie.Genres := Some ["drama"; "romance"];
     Movie.CreatedAt := 0; Movie.Version := 3 |}.

(** Another request that changes the runtime of every movie and, as
    every update does, moves the version on. *)
Definition other_update (d : DB) : DB :=
  set_movies (map (movie_set "Casablanca" 1942 103 (Some ["drama"])) (movies d)) d.

(** Another request that renames every user, moving the version on. *)
Definition other_rename (d : DB) : DB :=
  set_users (map (fun r => user_set "Anne" (users_email r)
                             (users_password_hash r) (users_activated r) r)
                 (users d)) d.

(** A request body that sets the runtime and nothing else. *)
Definition sample_input : updateMovieInput :=
  {| input_Title := None; input_Year := None; input_Runtime := Some 110;
     input_Genres := None |}.

(** A handler that accepts the request as it reaches it. *)
Definition accept : HandlerFunc := fun st => (Ret None, st).

(** A request whose [Authorization] header is present and empty. *)
Definition empty_authorization : State :=
  start sample_DB 50 (request (Some [""])).

(** The outcome of a request the authenticator turns down: status
    401, and the challenge in the [WWW-Authenticate] response header. *)
Definition challenge (st : State) : Go (option error) * State :=
  (Ret (Some (HTTPError 401 (MsgText "invalid authentication token"))),
   response_Header_Set "WWW-Authenticate" "Bearer" st).

(** The value of the [Authorization] header as the authenticator reads
    it. *)
Definition authHeader (st : State) : string :=
  Header_Get (request_header (ctx st)) "Authorization".

(** The state in which the authenticator looks the token up. *)
Definition vary (st : State) : State :=
  response_Header_Add "Vary" "Authorization" st.

(** A request that presents Ann's authentication token. *)
Definition bearer_session : State :=
  start sample_DB 50 (request (Some ["Bearer SESSION"])).

(* ===================================================================== *)
(** ** Further functions of the sources *)
(* ===================================================================== *)

(** [url.Values.Get]: the first value of the key, [""] when there is
    none. *)
Definition Values_Get (qs : gmap string (list string)) (key : string) : string :=
  match qs !! key with
  | Some (value :: _) => value
  | _ => ""
  end.

(** [application.readString]. *)
Definition readString (qs : gmap string (list string))
    (key defaultValue : string) : string :=
  let s := Values_Get qs key in
  if String.eqb s "" then defaultValue else s.

(** [application.readInt]; [Atoi] is [strconv.Atoi].  The validator
    argument is returned as the call leaves it. *)
Definition readInt (Atoi : string → Z * option error)
    (qs : gmap string (list string)) (key : string) (defaultValue : Z)
    (v : Validator) : Z * Validator :=
  let n := Values_Get qs key in
  if String.eqb n "" then (defaultValue, v)
  else
    let '(i, err) := Atoi n in
    match err with
    | Some _ => (defaultValue, AddError v key "must be an integer value")
    | None => (i, v)
    end.

(** [application.readCSV]. *)
Definition readCSV (qs : gmap string (list string)) (key : string)
    (defaultValue : list string) : list string :=
  let csv := Values_Get qs key in
  if String.eqb csv "" then defaultValue else Split csv ",".

(** [application.getMoviesHandler] up to its validity test: the title,
    the genres and the filter read from the query parameters, and the
    validator after [ValidateFilters].  The handler answers 422 when
    that validator is not valid and calls [GetAll], which starts with
    [sortColumn] and [sortDirection] of the filter, when it is. *)
Definition getMoviesHandler_input (Atoi : string → Z * option error)
    (qs : gmap string (list string))
    : string * list string * Filter * Validator :=
  let v := New in
  let title := Values_Get qs "title" in
  let genres := readCSV qs "genres" [] in
  let '(page, v) := readInt Atoi qs "page" 1 v in
  let '(pageSize, v) := readInt Atoi qs "page_size" 5 v in
  let sort := readString qs "sort" "id" in
  let filter :=
    {| Page := page; PageSize := pageSize; Sort := sort;
       SortSafeList := ["id"; "title"; "year"; "runtime";
                        "-id"; "-title"; "-year"; "-runtime"] |} in
  (title, genres, filter, ValidateFilters v filter).

(** [data.ValidPlainText].  The second check dereferences the pointer
    whatever the first one found. *)
Definition ValidPlainText (v : Validator) (plaintext : option string)
    : Go Validator :=
  let v := Check v (bool_decide (plaintext ≠ None))
             "password" "password cannot be null" in
  match plaintext with
  | None =>
      Panic (any_runtime
               "runtime error: invalid memory address or nil pointer dereference")
  | Some p =>
      Ret (Check v (negb (String.eqb p "")) "password" "password must be provided")
  end.

(** [DELETE FROM movies WHERE id = $1]: the number of rows affected
    and the table without them. *)
Definition delete_movie (id : Z) (d : DB) : result Z * DB :=
  statement d
    (Z.of_nat (length (List.filter (fun r => movies_id r =? id) (movies d))),
     set_movies (List.filter (fun r => negb (movies_id r =? id)) (movies d)) d).

(** [MovieModel.Delete].  (The list of queries of the state records
    the statements named by [Query]; this one is not among them.) *)
Definition MovieModel_Delete (id : Z) (st : State) : option error * State :=
  if id <? 1 then (Some ErrNoRecordFound, st)
  else
    let '(r, d) := delete_movie id (db st) in
    let st := set_db d st in
    match r with
    | fail err => (Some err, st)
    | ok rowsAffected =>
        if rowsAffected =? 0 then (Some ErrNoRecordFound, st) else (None, st)
    end.

(** [application.showMovieHandler]; [atoi] is the result of
    [strconv.Atoi] on the [id] parameter. *)
Definition showMovieHandler (atoi : Z * option error) : HandlerFunc := fun st =>
  match readIDParam atoi with
  | fail err => NewHTTPError 404 (MsgErrorOf err) st
  | ok id =>
      let '(r, st) := MovieModel_Get id st in
      match r with
      | fail ErrNoRecordFound => NewHTTPError 404 (MsgText "Movie not found") st
      | fail err => (Ret (Some err), st)
      | ok movie =>
          (Ret None,
           c_JSON 200
             {[ "message" := V_string "Movie returned succussfully";
                "movie" := V_movie movie ]} st)
      end
  end.

(** [application.deleteMovieHandler]. *)
Definition deleteMovieHandler (atoi : Z * option error) : HandlerFunc := fun st =>
  match readIDParam atoi with
  | fail err => NewHTTPError 404 (MsgErrorOf err) st
  | ok id =>
      let '(err, st) := MovieModel_Delete id st in
      match err with
      | Some ErrNoRecordFound =>
          NewHTTPError 404 (MsgErrorOf ErrNoRecordFound) st
      | Some err => (Ret (Some err), st)
      | None =>
          (Ret None,
           c_JSON 200
             {[ "message" := V_string "Movie deleted succussfully" ]} st)
      end
  end.

(** [SELECT id, created_at, name, email, password_hash, activated,
     version FROM users WHERE email = $1]. *)
Definition select_user_by_email (email : string) (d : DB)
    : result (list users_row) * DB :=
  statement d
    (List.filter (fun r => String.eqb (users_email r) email) (users d), d).

(** [UserModel.GetByEmail]; as in [GetByToken], [user] lives in a
    fresh heap cell.  (Not recorded in the list of queries.) *)
Definition UserModel_GetByEmail (email : string) (st : State)
    : result ptr * State :=
  match QueryRow (fst (select_user_by_email email (db st))) with
  | ok r =>
      let '(user, st) := alloc (Scan_user r) st in
      (ok user, st)
  | fail ErrNoRows => (fail ErrNoRecordFound, st)
  | fail err => (fail err, st)
  end.

(** The text of the response for an error that is not an HTTP error. *)
Definition internal_error_body : gmap string Value :=
  {[ "error" := V_message
       (MsgText "the server encountered a problem and could not process your request") ]}.

(** The sample database when its connection fails; [msg] is the text
    of the driver's error. *)
Definition failing_DB (msg : string) : DB :=
  {| users := users sample_DB; tokens := tokens sample_DB;
     movies := movies sample_DB; grants := grants sample_DB;
     fault := Some msg |}.

(** A stand-in for [strconv.Atoi] on samples: one and two digits. *)
Definition sample_Atoi (s : string) : Z * option error :=
  if String.eqb s "2" then (2, None)
  else if String.eqb s "20" then (20, None)
  else (0, Some (errorString "strconv.Atoi: parsing: invalid syntax")).

(** A task that panics with a string, as [panic("boom")] does. *)
Definition string_panicking_task (s : string) : Task :=
  fun st => (Panic (any_string s), st).

(* ===================================================================== *)
(** ** Properties of the validator and of the filters *)
(* ===================================================================== *)

Lemma AddError_not_Valid (v : Validator) (key message : string) :
  Valid (AddError v key message) = false.
Proof.
  unfold Valid, AddError.
  destruct (Errors v !! key) as [x|] eqn:E; simpl; apply Nat.eqb_neq.
  - apply (map_size_ne_0_lookup_2 _ key). by exists x.
  - rewrite map_size_insert_None by done. lia.
Qed.

Lemma Check_Valid (v : Validator) (b : bool) (key message : string) :
  Valid (Check v b key message) = true → b = true ∧ Valid v = true.
Proof.
  unfold Check. destruct b; simpl; [done|].
  by rewrite AddError_not_Valid.
Qed.

Lemma sortColumn_loop_In (sort : string) (safe : list string) :
  In_ sort safe = true → sortColumn_loop sort safe = Ret (TrimPrefix sort "-").
Proof.
  induction safe as [|safeValue rest IH]; simpl; [done|].
  rewrite (String.eqb_sym safeValue sort).
  destruct (String.eqb sort safeValue); [done | exact IH].
Qed.

Lemma sortColumn_loop_not_In (sort : string) (safe : list string) :
  In_ sort safe = false →
  sortColumn_loop sort safe = Panic (any_string ("unsafe sort parameter: " +:+ sort)).
Proof.
  induction safe as [|safeValue rest IH]; simpl; [done|].
  rewrite (String.eqb_sym safeValue sort).
  destruct (String.eqb sort safeValue); [done | exact IH].
Qed.

Lemma TrimPrefix_dash (rest : string) : TrimPrefix (String "-" rest) "-" = rest.
Proof.
  unfold TrimPrefix, HasPrefix. simpl.
  by destruct rest.
Qed.

(** C9.  When [ValidateFilters] leaves the validator without errors,
    [sortColumn] returns and does not panic: its result is [Sort]
    with a leading ["-"] removed, that is, the rest of [Sort] when it
    starts with ["-"] and [Sort] itself otherwise. *)
Theorem sortColumn_after_ValidateFilters (v : Validator) (f : Filter) :
  Valid (ValidateFilters v f) = true →
  sortColumn f = Ret (TrimPrefix (Sort f) "-")
  ∧ (∀ p, sortColumn f ≠ Panic p)
  ∧ (∀ rest, Sort f = String "-" rest → sortColumn f = Ret rest)
  ∧ (HasPrefix (Sort f) "-" = false → sortColumn f = Ret (Sort f)).
Proof.
  intros Hvalid. unfold ValidateFilters in Hvalid.
  apply Check_Valid in Hvalid as [Hin _].
  assert (Hret : sortColumn f = Ret (TrimPrefix (Sort f) "-"))
    by (unfold sortColumn; by apply sortColumn_loop_In).
  split; [exact Hret|]. split; [|split].
  - intros p Hp. rewrite Hret in Hp. discriminate.
  - intros rest Hs. rewrite Hret, Hs. by rewrite TrimPrefix_dash.
  - intros Hno. rewrite Hret. unfold TrimPrefix. by rewrite Hno.
Qed.

Lemma sortColumn_after_ValidateFilters_witness :
  Valid (ValidateFilters New (getMovies_filter "-year")) = true
  ∧ sortColumn (getMovies_filter "-year") = Ret "year".
Proof.
  assert (H : Valid (ValidateFilters New (getMovies_filter "-year")) = true)
    by reflexivity.
  split; [exact H|].
  destruct (sortColumn_after_ValidateFilters New (getMovies_filter "-year") H)
    as (_ & _ & Hdash & _).
  by apply Hdash.
Defined.

(* ===================================================================== *)
(** ** The anonymous user *)
(* ===================================================================== *)

Lemma IsAnonymous_iff (u : ptr) : IsAnonymous u = true ↔ u = AnonymousUser.
Proof. unfold IsAnonymous. apply Nat.eqb_eq. Qed.

Lemma alloc_fresh (r : User.t) (st : State) :
  heap_initialised st →
  IsAnonymous (fst (alloc r st)) = false
  ∧ load (fst (alloc r st)) (snd (alloc r st)) = r
  ∧ load AnonymousUser (snd (alloc r st)) = load AnonymousUser st.
Proof.
  unfold heap_initialised, alloc, load, IsAnonymous, AnonymousUser. simpl.
  intros Hlen. split; [|split].
  - apply Nat.eqb_neq. lia.
  - by rewrite list_lookup_total_middle.
  - apply lookup_total_app_l. exact Hlen.
Qed.

(** C7.  [IsAnonymous] holds of a pointer exactly when it is the
    pointer [AnonymousUser]; a user record allocated while the program
    runs, whatever its fields hold and so also when they all hold the
    zero values of the anonymous user's fields, is not anonymous.  The
    records [GetByToken] returns are such records. *)
Theorem IsAnonymous_by_reference (st : State) (r : User.t) :
  heap_initialised st →
  (∀ u : ptr, IsAnonymous u = true ↔ u = AnonymousUser)
  ∧ IsAnonymous (fst (alloc r st)) = false
  ∧ load (fst (alloc r st)) (snd (alloc r st)) = r
  ∧ (r = load AnonymousUser st →
     load (fst (alloc r st)) (snd (alloc r st))
     = load AnonymousUser (snd (alloc r st)))
  ∧ (∀ (sha256 : string → string) (scope token : string) (user : ptr)
       (st1 : State),
       UserModel_GetByToken sha256 scope token st = (ok user, st1) →
       IsAnonymous user = false).
Proof.
  intros Hinit. destruct (alloc_fresh r st Hinit) as (Hfresh & Hload & Hanon).
  split; [exact IsAnonymous_iff|]. split; [exact Hfresh|].
  split; [exact Hload|]. split.
  - intros Hr. by rewrite Hload, Hanon.
  - intros sha256 scope token user st1 Hget.
    unfold UserModel_GetByToken in Hget.
    destruct (QueryRow _) as [row|e]; [|destruct e; discriminate].
    injection Hget as <- _.
    apply Nat.eqb_neq. unfold heap_initialised in Hinit. simpl.
    unfold AnonymousUser. lia.
Qed.

Lemma IsAnonymous_by_reference_witness :
  heap_initialised (start empty_DB 0 (request None))
  ∧ IsAnonymous (fst (alloc User.zero (start empty_DB 0 (request None)))) = false
  ∧ load (fst (alloc User.zero (start empty_DB 0 (request None))))
         (snd (alloc User.zero (start empty_DB 0 (request None))))
    = load AnonymousUser (snd (alloc User.zero (start empty_DB 0 (request None)))).
Proof.
  assert (H : heap_initialised (start empty_DB 0 (request None)))
    by (unfold heap_initialised; simpl; lia).
  split; [exact H|].
  destruct (IsAnonymous_by_reference (start empty_DB 0 (request None)) User.zero H)
    as (_ & Hfresh & _ & Hsame & _).
  split; [exact Hfresh|].
  apply Hsame. reflexivity.
Defined.

(* ===================================================================== *)
(** ** Background tasks *)
(* ===================================================================== *)

Lemma background_returns (fn : Task) (st st1 : State) :
  fn st = (Ret tt, st1) →
  run_goroutine (fst (background fn st)) st = Running (wg_Add (-1) st1).
Proof.
  intros H. unfold run_goroutine, background, background_goroutine. simpl.
  by rewrite H.
Qed.

Lemma background_recovers_string_panic (fn : Task) (st st1 : State) (s : string) :
  fn st = (Panic (any_string s), st1) →
  run_goroutine (fst (background fn st)) st
  = Running (wg_Add (-1) (logger_Error s st1)).
Proof.
  intros H. unfold run_goroutine, background, background_goroutine. simpl.
  by rewrite H.
Qed.

(** C8, where the program departs from it.  A task that panics with a
    value that is not a string, here an error value, is not contained:
    the deferred function recovers the panic and panics again at the
    type assertion [err.(string)], nothing is logged, and the panic
    leaves the goroutine, which ends the process. *)
Theorem background_error_panic_crashes (e : error) (st0 st : State) :
  run_goroutine (fst (background (panicking_task e) st0)) st
  = Crashed (any_runtime
               "interface conversion: interface {} is error, not string")
  ∧ logger (snd (fst (background (panicking_task e) st0) st)) = logger st.
Proof. split; reflexivity. Qed.

(* ===================================================================== *)
(** ** The store: general facts *)
(* ===================================================================== *)

Lemma statement_ok {A : Type} (d : DB) (run : A * DB) :
  fault d = None → statement d run = (ok (fst run), snd run).
Proof. intros H. unfold statement. by rewrite H. Qed.

Lemma filter_all_false {A : Type} (f : A → bool) (l : list A) :
  (∀ x, x ∈ l → f x = false) → List.filter f l = [].
Proof.
  induction l as [|a l IH]; intros H; simpl; [done|].
  rewrite (H a) by apply list_elem_of_here.
  apply IH. intros x Hx. apply H. by apply list_elem_of_further.
Qed.

Lemma map_if_all_false {A : Type} (f : A → bool) (g : A → A) (l : list A) :
  (∀ x, x ∈ l → f x = false) →
  map (fun r => if f r then g r else r) l = l.
Proof.
  induction l as [|a l IH]; intros H; simpl; [done|].
  rewrite (H a) by apply list_elem_of_here.
  f_equal. apply IH. intros x Hx. apply H. by apply list_elem_of_further.
Qed.

Lemma existsb_all_false {A : Type} (f : A → bool) (l : list A) :
  (∀ x, x ∈ l → f x = false) → existsb f l = false.
Proof.
  induction l as [|a l IH]; intros H; simpl; [done|].
  rewrite (H a) by apply list_elem_of_here.
  apply IH. intros x Hx. apply H. by apply list_elem_of_further.
Qed.

Lemma filter_head_elem {A : Type} (f : A → bool) (l : list A) (x : A) (rest : list A) :
  List.filter f l = x :: rest → x ∈ l ∧ f x = true.
Proof.
  intros H.
  assert (Hin : List.In x (List.filter f l)) by (rewrite H; by left).
  apply filter_In in Hin as [Hin Hf].
  split; [by apply list_elem_of_In | exact Hf].
Qed.

Lemma filter_elem_nonempty {A : Type} (f : A → bool) (l : list A) (x : A) :
  x ∈ l → f x = true → List.filter f l ≠ [].
Proof.
  intros Hin Hf Hnil.
  assert (Hx : List.In x (List.filter f l)).
  { apply filter_In. split; [by apply list_elem_of_In | exact Hf]. }
  rewrite Hnil in Hx. destruct Hx.
Qed.

Lemma lookup_map {A B : Type} (f : A → B) (l : list A) (i : nat) :
  map f l !! i = f <$> (l !! i).
Proof.
  revert i. induction l as [|a l IH]; intros [|i]; simpl; auto.
Qed.

Lemma set_movies_same (d : DB) : set_movies (movies d) d = d.
Proof. by destruct d. Qed.

Lemma set_users_same (d : DB) : set_users (users d) d = d.
Proof. by destruct d. Qed.

Lemma movie_hit_stale (id version : Z) (d : DB) :
  stale_movie id version d →
  ∀ r, r ∈ movies d → movie_hit id version r = false.
Proof.
  intros Hstale r Hr. unfold movie_hit.
  destruct (Z.eqb_spec (movies_id r) id) as [Hid|]; [|done].
  destruct (Z.eqb_spec (movies_version r) version) as [Hv|]; [|done].
  by destruct (Hstale r Hr Hid).
Qed.

Lemma user_hit_stale (id version : Z) (d : DB) :
  stale_user id version d →
  ∀ r, r ∈ users d → user_hit id version r = false.
Proof.
  intros Hstale r Hr. unfold user_hit.
  destruct (Z.eqb_spec (users_id r) id) as [Hid|]; [|done].
  destruct (Z.eqb_spec (users_version r) version) as [Hv|]; [|done].
  by destruct (Hstale r Hr Hid).
Qed.

(* ===================================================================== *)
(** ** Optimistic concurrency: the conditional update *)
(* ===================================================================== *)

Lemma MovieModel_Update_conflict (movie : Movie.t) (st : State) :
  fault (db st) = None →
  stale_movie (Movie.ID movie) (Movie.Version movie) (db st) →
  MovieModel_Update movie st
  = (movie, Some ErrEditConflict,
     send (Q_Movies_Update (Movie.ID movie) (Movie.Version movie)) st).
Proof.
  intros Hfault Hstale.
  pose proof (movie_hit_stale _ _ _ Hstale) as Hhit.
  unfold MovieModel_Update, update_movie. simpl.
  rewrite statement_ok by exact Hfault. simpl.
  rewrite filter_all_false by exact Hhit.
  rewrite map_if_all_false by exact Hhit.
  simpl. rewrite set_movies_same.
  by destruct st.
Qed.

Lemma UserModel_Update_conflict (user : ptr) (st : State) :
  fault (db st) = None →
  stale_user (User.ID (load user st)) (User.Version (load user st)) (db st) →
  UserModel_Update user st
  = (Some ErrEditConflict,
     send (Q_Users_Update (User.ID (load user st))
             (User.Version (load user st))) st).
Proof.
  intros Hfault Hstale.
  pose proof (user_hit_stale _ _ _ Hstale) as Hhit.
  unfold UserModel_Update, update_user. simpl.
  rewrite Hfault.
  rewrite existsb_all_false by exact Hhit. simpl.
  rewrite filter_all_false by exact Hhit.
  rewrite map_if_all_false by exact Hhit.
  simpl. rewrite set_users_same.
  by destruct st.
Qed.

(** The state after a movie's update went through. *)
Lemma MovieModel_Update_inv (movie movie' : Movie.t) (st st' : State) :
  MovieModel_Update movie st = (movie', None, st') →
  fault (db st) = None
  ∧ (∃ r, r ∈ movies (db st)
          ∧ movie_hit (Movie.ID movie) (Movie.Version movie) r = true)
  ∧ int32_ok (Movie.Version movie + 1) = true
  ∧ movie' = Movie.set_Version (Movie.Version movie + 1) movie
  ∧ st' = set_db
            (set_movies
               (map (fun r => if movie_hit (Movie.ID movie) (Movie.Version movie) r
                              then movie_set (Movie.Title movie) (Movie.Year movie)
                                     (Movie.Runtime movie) (Movie.Genres movie) r
                              else r)
                    (movies (db st))) (db st))
            (send (Q_Movies_Update (Movie.ID movie) (Movie.Version movie)) st).
Proof.
  unfold MovieModel_Update, update_movie, statement. simpl.
  destruct (fault (db st)) as [msg|] eqn:Hfault; simpl; [discriminate|].
  destruct (List.filter _ (movies (db st))) as [|r rest] eqn:Hfilter; simpl;
    [discriminate|].
  apply filter_head_elem in Hfilter as [Hin Hhit].
  assert (Hv : movies_version r = Movie.Version movie).
  { unfold movie_hit in Hhit. apply andb_true_iff in Hhit as [_ Hv].
    by apply Z.eqb_eq in Hv. }
  rewrite Hv.
  destruct (int32_ok (Movie.Version movie + 1)) eqn:Hrange; [|discriminate].
  intros [= <- <-].
  split; [done|]. split; [by exists r|]. done.
Qed.

Lemma MovieModel_Update_ok (movie : Movie.t) (st : State) (r : movies_row) :
  fault (db st) = None →
  r ∈ movies (db st) →
  movies_id r = Movie.ID movie →
  movies_version r = Movie.Version movie →
  int32_ok (Movie.Version movie + 1) = true →
  ∃ st', MovieModel_Update movie st
         = (Movie.set_Version (Movie.Version movie + 1) movie, None, st').
Proof.
  intros Hfault Hin Hid Hv Hrange.
  assert (Hhit : movie_hit (Movie.ID movie) (Movie.Version movie) r = true).
  { unfold movie_hit. rewrite Hid, Hv, !Z.eqb_refl. done. }
  unfold MovieModel_Update, update_movie, statement. simpl.
  rewrite Hfault. simpl.
  destruct (List.filter _ (movies (db st))) as [|x rest] eqn:Hfilter; simpl.
  - by destruct (filter_elem_nonempty _ _ _ Hin Hhit).
  - apply filter_head_elem in Hfilter as [_ Hx].
    unfold movie_hit in Hx. apply andb_true_iff in Hx as [_ Hx].
    apply Z.eqb_eq in Hx. rewrite Hx, Hrange. eauto.
Qed.

(** The state after a user's update went through. *)
Lemma UserModel_Update_inv (user : ptr) (st st' : State) :
  UserModel_Update user st = (None, st') →
  fault (db st) = None
  ∧ (∃ r, r ∈ users (db st)
          ∧ user_hit (User.ID (load user st)) (User.Version (load user st)) r
            = true)
  ∧ st' = store_user user
            (User.set_Version (User.Version (load user st) + 1) (load user st))
            (set_db
               (set_users
                  (map (fun r =>
                          if user_hit (User.ID (load user st))
                               (User.Version (load user st)) r
                          then user_set (User.Name (load user st))
                                 (User.Email (load user st))
                                 (hash (User.Password (load user st)))
                                 (User.Activated (load user st)) r
                          else r)
                       (users (db st))) (db st))
               (send (Q_Users_Update (User.ID (load user st))
                        (User.Version (load user st))) st)).
Proof.
  unfold UserModel_Update, update_user. simpl.
  destruct (fault (db st)) as [msg|] eqn:Hfault; simpl.
  { destruct (String.eqb msg users_email_key_violation); discriminate. }
  match goal with
  | |- context [if ?c then _ else _] => destruct c
  end; simpl; [discriminate|].
  destruct (List.filter _ (users (db st))) as [|r rest] eqn:Hfilter; simpl;
    [discriminate|].
  apply filter_head_elem in Hfilter as [Hin Hhit].
  assert (Hv : users_version r = User.Version (load user st)).
  { unfold user_hit in Hhit. apply andb_true_iff in Hhit as [_ Hv].
    by apply Z.eqb_eq in Hv. }
  rewrite Hv. intros [= <-].
  split; [done|]. split; [by exists r|]. done.
Qed.

Lemma email_filter_nil (name email password_hash : string) (activated : bool)
    (id version : Z) (l : list users_row) :
  (∀ r, r ∈ l → users_id r ≠ id) →
  (∀ r, r ∈ l → users_email r = email → users_id r = id) →
  List.filter (fun r => String.eqb (users_email r) email)
    (map (fun r => if user_hit id version r
                   then user_set name email password_hash activated r else r) l)
  = [].
Proof.
  induction l as [|a l IH]; intros Hid Hemail; simpl; [done|].
  assert (Ha : a ∈ a :: l) by apply list_elem_of_here.
  assert (Hhit : user_hit id version a = false).
  { unfold user_hit. destruct (Z.eqb_spec (users_id a) id) as [E|]; [|done].
    by destruct (Hid a Ha). }
  rewrite Hhit.
  destruct (String.eqb_spec (users_email a) email) as [E|_].
  { destruct (Hid a Ha). by apply Hemail. }
  apply IH; intros r Hr; [apply Hid | apply Hemail]; by apply list_elem_of_further.
Qed.

Lemma email_filter_le_1 (name email password_hash : string) (activated : bool)
    (id version : Z) (l : list users_row) :
  NoDup (map users_id l) →
  (∀ r, r ∈ l → users_email r = email → users_id r = id) →
  (length
     (List.filter (fun r => String.eqb (users_email r) email)
        (map (fun r => if user_hit id version r
                       then user_set name email password_hash activated r else r)
             l)) ≤ 1)%nat.
Proof.
  induction l as [|a l IH]; intros Hnodup Hemail; simpl; [lia|].
  apply NoDup_cons in Hnodup as [Hnotin Hnodup].
  assert (Ha : a ∈ a :: l) by apply list_elem_of_here.
  assert (Hrest : ∀ r, r ∈ l → users_email r = email → users_id r = id).
  { intros r Hr. apply Hemail. by apply list_elem_of_further. }
  destruct (Z.eq_dec (users_id a) id) as [Hid|Hid].
  - assert (Hnil : List.filter (fun r => String.eqb (users_email r) email)
             (map (fun r => if user_hit id version r
                            then user_set name email password_hash activated r
                            else r) l) = []).
    { apply email_filter_nil; [|exact Hrest].
      intros r Hr Hrid. apply Hnotin.
      rewrite Hid, <- Hrid.
      apply list_elem_of_In, in_map, list_elem_of_In, Hr. }
    rewrite Hnil.
    match goal with
    | |- context [if ?c then _ else _] => destruct c
    end; simpl; lia.
  - assert (Hhit : user_hit id version a = false).
    { unfold user_hit. by destruct (Z.eqb_spec (users_id a) id). }
    rewrite Hhit.
    destruct (String.eqb_spec (users_email a) email) as [E|_].
    { destruct Hid. by apply Hemail. }
    by apply IH.
Qed.

Lemma UserModel_Update_ok (user : ptr) (st : State) (r : users_row) :
  fault (db st) = None →
  r ∈ users (db st) →
  users_id r = User.ID (load user st) →
  users_version r = User.Version (load user st) →
  NoDup (map users_id (users (db st))) →
  (∀ r', r' ∈ users (db st) → users_email r' = User.Email (load user st) →
         users_id r' = User.ID (load user st)) →
  ∃ st', UserModel_Update user st = (None, st').
Proof.
  intros Hfault Hin Hid Hv Hkey Hemail.
  assert (Hhit : user_hit (User.ID (load user st)) (User.Version (load user st)) r
                 = true).
  { unfold user_hit. rewrite Hid, Hv, !Z.eqb_refl. done. }
  unfold UserModel_Update, update_user. simpl.
  rewrite Hfault.
  pose proof (email_filter_le_1 (User.Name (load user st))
                (User.Email (load user st)) (hash (User.Password (load user st)))
                (User.Activated (load user st)) (User.ID (load user st))
                (User.Version (load user st)) (users (db st)) Hkey Hemail) as Hle.
  apply Nat.ltb_ge in Hle. rewrite Hle, andb_false_r. simpl.
  destruct (List.filter _ (users (db st))) as [|x rest] eqn:Hfilter; simpl.
  - by destruct (filter_elem_nonempty _ _ _ Hin Hhit).
  - eauto.
Qed.

Lemma movie_hit_true (id version : Z) (r : movies_row) :
  movie_hit id version r = true ↔ movies_id r = id ∧ movies_version r = version.
Proof. unfold movie_hit. rewrite andb_true_iff, !Z.eqb_eq. done. Qed.

Lemma user_hit_true (id version : Z) (r : users_row) :
  user_hit id version r = true ↔ users_id r = id ∧ users_version r = version.
Proof. unfold user_hit. rewrite andb_true_iff, !Z.eqb_eq. done. Qed.

Lemma MovieModel_Update_effect (movie movie' : Movie.t) (st st' : State) :
  MovieModel_Update movie st = (movie', None, st') →
  Movie.Version movie' = Movie.Version movie + 1
  ∧ (∃ r, r ∈ movies (db st) ∧ movies_id r = Movie.ID movie
          ∧ movies_version r = Movie.Version movie)
  ∧ (∀ i r, movies (db st) !! i = Some r →
       movies_id r = Movie.ID movie →
       movies_version r = Movie.Version movie →
       movies (db st') !! i
       = Some {| movies_id := movies_id r;
                 movies_created_at := movies_created_at r;
                 movies_title := Movie.Title movie;
                 movies_year := Movie.Year movie;
                 movies_runtime := Movie.Runtime movie;
                 movies_genres := Movie.Genres movie;
                 movies_version := Movie.Version movie + 1 |})
  ∧ (∀ i r, movies (db st) !! i = Some r →
       ¬ (movies_id r = Movie.ID movie
          ∧ movies_version r = Movie.Version movie) →
       movies (db st') !! i = Some r).
Proof.
  intros H.
  apply MovieModel_Update_inv in H as (_ & [r [Hin Hhit]] & _ & -> & ->).
  apply movie_hit_true in Hhit as [Hid Hv].
  split; [done|]. split; [by exists r|]. simpl. split.
  - intros i x Hx Hxid Hxv. rewrite lookup_map, Hx. simpl.
    assert (E : movie_hit (Movie.ID movie) (Movie.Version movie) x = true)
      by by apply movie_hit_true.
    rewrite E. unfold movie_set. by rewrite Hxv.
  - intros i x Hx Hno. rewrite lookup_map, Hx. simpl.
    destruct (movie_hit (Movie.ID movie) (Movie.Version movie) x) eqn:E;
      [|done].
    apply movie_hit_true in E. by destruct Hno.
Qed.

Lemma UserModel_Update_effect (user : ptr) (st st' : State) :
  (user < length (heap st))%nat →
  UserModel_Update user st = (None, st') →
  User.Version (load user st') = User.Version (load user st) + 1
  ∧ (∃ r, r ∈ users (db st) ∧ users_id r = User.ID (load user st)
          ∧ users_version r = User.Version (load user st))
  ∧ (∀ i r, users (db st) !! i = Some r →
       users_id r = User.ID (load user st) →
       users_version r = User.Version (load user st) →
       users (db st') !! i
       = Some {| users_id := users_id r;
                 users_created_at := users_created_at r;
                 users_name := User.Name (load user st);
                 users_email := User.Email (load user st);
                 users_password_hash := hash (User.Password (load user st));
                 users_activated := User.Activated (load user st);
                 users_version := User.Version (load user st) + 1 |})
  ∧ (∀ i r, users (db st) !! i = Some r →
       ¬ (users_id r = User.ID (load user st)
          ∧ users_version r = User.Version (load user st)) →
       users (db st') !! i = Some r).
Proof.
  intros Hvalid H.
  apply UserModel_Update_inv in H as (_ & [r [Hin Hhit]] & ->).
  apply user_hit_true in Hhit as [Hid Hv].
  split; [|split; [by exists r|]].
  - unfold load, store_user. simpl.
    rewrite list_lookup_total_insert_eq by exact Hvalid. done.
  - simpl. split.
    + intros i x Hx Hxid Hxv. rewrite lookup_map, Hx. simpl.
      assert (E : user_hit (User.ID (load user st))
                    (User.Version (load user st)) x = true)
        by by apply user_hit_true.
      rewrite E. unfold user_set. by rewrite Hxv.
    + intros i x Hx Hno. rewrite lookup_map, Hx. simpl.
      destruct (user_hit (User.ID (load user st))
                  (User.Version (load user st)) x) eqn:E; [|done].
      apply user_hit_true in E. by destruct Hno.
Qed.

(** C2.  A conditional update that goes through found the resource at
    the version the caller supplied, rewrote its fields and set its
    version to the supplied version plus one in the same statement,
    left every other row as it was, and handed the new version back
    to the caller.  It goes through whenever the resource is stored at
    the supplied version.  This holds for movies and for users. *)
Theorem update_increments_version :
  (∀ (movie movie' : Movie.t) (st st' : State),
      MovieModel_Update movie st = (movie', None, st') →
      Movie.Version movie' = Movie.Version movie + 1
      ∧ (∃ r, r ∈ movies (db st) ∧ movies_id r = Movie.ID movie
              ∧ movies_version r = Movie.Version movie)
      ∧ (∀ i r, movies (db st) !! i = Some r →
           movies_id r = Movie.ID movie →
           movies_version r = Movie.Version movie →
           movies (db st') !! i
           = Some {| movies_id := movies_id r;
                     movies_created_at := movies_created_at r;
                     movies_title := Movie.Title movie;
                     movies_year := Movie.Year movie;
                     movies_runtime := Movie.Runtime movie;
                     movies_genres := Movie.Genres movie;
                     movies_version := Movie.Version movie + 1 |})
      ∧ (∀ i r, movies (db st) !! i = Some r →
           ¬ (movies_id r = Movie.ID movie
              ∧ movies_version r = Movie.Version movie) →
           movies (db st') !! i = Some r))
  ∧ (∀ (movie : Movie.t) (st : State) (r : movies_row),
      fault (db st) = None →
      r ∈ movies (db st) →
      movies_id r = Movie.ID movie →
      movies_version r = Movie.Version movie →
      int32_ok (Movie.Version movie + 1) = true →
      ∃ st', MovieModel_Update movie st
             = (Movie.set_Version (Movie.Version movie + 1) movie, None, st'))
  ∧ (∀ (user : ptr) (st st' : State),
      (user < length (heap st))%nat →
      UserModel_Update user st = (None, st') →
      User.Version (load user st') = User.Version (load user st) + 1
      ∧ (∃ r, r ∈ users (db st) ∧ users_id r = User.ID (load user st)
              ∧ users_version r = User.Version (load user st))
      ∧ (∀ i r, users (db st) !! i = Some r →
           users_id r = User.ID (load user st) →
           users_version r = User.Version (load user st) →
           users (db st') !! i
           = Some {| users_id := users_id r;
                     users_created_at := users_created_at r;
                     users_name := User.Name (load user st);
                     users_email := User.Email (load user st);
                     users_password_hash := hash (User.Password (load user st));
                     users_activated := User.Activated (load user st);
                     users_version := User.Version (load user st) + 1 |})
      ∧ (∀ i r, users (db st) !! i = Some r →
           ¬ (users_id r = User.ID (load user st)
              ∧ users_version r = User.Version (load user st)) →
           users (db st') !! i = Some r))
  ∧ (∀ (user : ptr) (st : State) (r : users_row),
      fault (db st) = None →
      r ∈ users (db st) →
      users_id r = User.ID (load user st) →
      users_version r = User.Version (load user st) →
      NoDup (map users_id (users (db st))) →
      (∀ r', r' ∈ users (db st) →
             users_email r' = User.Email (load user st) →
             users_id r' = User.ID (load user st)) →
      ∃ st', UserModel_Update user st = (None, st')).
Proof.
  split; [|split; [|split]].
  - exact MovieModel_Update_effect.
  - intros movie st r. apply MovieModel_Update_ok.
  - exact UserModel_Update_effect.
  - intros user st r. apply UserModel_Update_ok.
Qed.

Lemma update_increments_version_witness :
  ∃ movie' st',
    MovieModel_Update sample_movie (start sample_DB 50 (request None))
    = (movie', None, st')
    ∧ Movie.Version movie' = 4
    ∧ movies (db st') !! 0%nat
      = Some {| movies_id := 1; movies_created_at := 0;
                movies_title := "Casablanca"; movies_year := 1942;
                movies_runtime := 102;
                movies_genres := Some ["drama"; "romance"];
                movies_version := 4 |}.
Proof.
  destruct update_increments_version as (Heffect & Hgoes & _).
  destruct (Hgoes sample_movie (start sample_DB 50 (request None))
              sample_movies_row eq_refl (list_elem_of_here _ _) eq_refl eq_refl
              eq_refl) as [st' Hrun].
  exists (Movie.set_Version 4 sample_movie), st'.
  split; [exact Hrun|].
  destruct (Heffect _ _ _ _ Hrun) as (Hv & _ & Hrow & _).
  split; [exact Hv|].
  exact (Hrow 0%nat sample_movies_row eq_refl eq_refl eq_refl).
Defined.

(* ===================================================================== *)
(** ** Reading a movie, reading a user by token *)
(* ===================================================================== *)

Lemma Scan_movie_ok (r : movies_row) (movie : Movie.t) :
  Scan_movie r = ok movie →
  Movie.ID movie = movies_id r ∧ Movie.Title movie = movies_title r
  ∧ Movie.Year movie = movies_year r ∧ Movie.Runtime movie = movies_runtime r
  ∧ Movie.Genres movie = movies_genres r
  ∧ Movie.CreatedAt movie = movies_created_at r
  ∧ Movie.Version movie = movies_version r.
Proof.
  unfold Scan_movie.
  destruct (int32_ok (movies_year r) && int32_ok (movies_runtime r)
            && int32_ok (movies_version r)); [|discriminate].
  intros [= <-]. done.
Qed.

Lemma MovieModel_Get_inv (id : Z) (st st1 : State) (movie : Movie.t) :
  MovieModel_Get id st = (ok movie, st1) →
  st1 = send (Q_Movies_Get id) st
  ∧ ∃ r, r ∈ movies (db st) ∧ movies_id r = id ∧ Scan_movie r = ok movie.
Proof.
  unfold MovieModel_Get, select_movie, statement.
  destruct (id <? 1); [discriminate|]. simpl.
  destruct (fault (db st)); simpl; [discriminate|].
  destruct (List.filter _ (movies (db st))) as [|r rest] eqn:Hfilter; simpl;
    [discriminate|].
  apply filter_head_elem in Hfilter as [Hin Hid]. apply Z.eqb_eq in Hid.
  destruct (Scan_movie r) as [m|e] eqn:Hscan; [|discriminate].
  intros [= <- <-]. split; [done|]. by exists r.
Qed.

Lemma apply_input_ID (input : updateMovieInput) (movie : Movie.t) :
  Movie.ID (apply_input input movie) = Movie.ID movie.
Proof.
  unfold apply_input.
  by destruct (input_Title input), (input_Year input), (input_Runtime input),
       (input_Genres input).
Qed.

Lemma apply_input_Version (input : updateMovieInput) (movie : Movie.t) :
  Movie.Version (apply_input input movie) = Movie.Version movie.
Proof.
  unfold apply_input.
  by destruct (input_Title input), (input_Year input), (input_Runtime input),
       (input_Genres input).
Qed.

Lemma select_user_by_token_elem (sha256 : string → string) (scope token : string)
    (now : Z) (d : DB) (rows : list users_row) (r : users_row) :
  fst (select_user_by_token (sha256 token) scope now d) = ok rows →
  r ∈ rows →
  fault d = None
  ∧ r ∈ users d
  ∧ ∃ t, t ∈ tokens d ∧ users_id r = tokens_user_id t
         ∧ live_token sha256 scope token now t = true.
Proof.
  unfold select_user_by_token, statement.
  destruct (fault d); simpl; [discriminate|].
  intros [= <-] Hr. split; [done|].
  apply list_elem_of_In, in_flat_map in Hr as (u & Hu & Hr).
  apply in_flat_map in Hr as (t & Ht & Hr).
  destruct ((users_id u =? tokens_user_id t)
            && String.eqb (tokens_hash t) (sha256 token)
            && String.eqb (tokens_scope t) scope
            && (now <? tokens_expiry t)) eqn:Hcond; [|destruct Hr].
  destruct Hr as [<-|[]].
  apply andb_true_iff in Hcond as [Hcond Hexp].
  apply andb_true_iff in Hcond as [Hcond Hscope].
  apply andb_true_iff in Hcond as [Hid Hhash].
  apply Z.eqb_eq in Hid.
  split; [by apply list_elem_of_In|].
  exists t. split; [by apply list_elem_of_In|]. split; [exact Hid|].
  unfold live_token. by rewrite Hhash, Hscope, Hexp.
Qed.

Lemma select_user_by_token_none (sha256 : string → string) (scope token : string)
    (now : Z) (d : DB) :
  fault d = None →
  (∀ t, t ∈ tokens d → live_token sha256 scope token now t = false) →
  fst (select_user_by_token (sha256 token) scope now d) = ok [].
Proof.
  intros Hfault Hnone. unfold select_user_by_token.
  rewrite statement_ok by exact Hfault. simpl. f_equal.
  destruct (flat_map _ (users d)) as [|r rows] eqn:E; [done|].
  assert (Hr : List.In r (r :: rows)) by by left.
  rewrite <- E in Hr.
  apply in_flat_map in Hr as (u & Hu & Hr).
  apply in_flat_map in Hr as (t & Ht & Hr).
  apply list_elem_of_In in Ht. specialize (Hnone t Ht).
  unfold live_token in Hnone.
  destruct (users_id u =? tokens_user_id t); simpl in Hr; [|destruct Hr].
  destruct (String.eqb (tokens_hash t) (sha256 token)); simpl in *; [|destruct Hr].
  destruct (String.eqb (tokens_scope t) scope); simpl in *; [|destruct Hr].
  rewrite Hnone in Hr. destruct Hr.
Qed.

Lemma select_user_by_token_some (sha256 : string → string) (scope token : string)
    (now : Z) (d : DB) (u : users_row) (t : tokens_row) :
  fault d = None →
  u ∈ users d → t ∈ tokens d → users_id u = tokens_user_id t →
  live_token sha256 scope token now t = true →
  ∃ r rows, fst (select_user_by_token (sha256 token) scope now d) = ok (r :: rows).
Proof.
  intros Hfault Hu Ht Hid Hlive. unfold select_user_by_token.
  rewrite statement_ok by exact Hfault. simpl.
  destruct (flat_map _ (users d)) as [|r rows] eqn:E; [|by eauto].
  exfalso.
  assert (Hin : List.In u []); [|destruct Hin].
  rewrite <- E. apply in_flat_map. exists u.
  split; [by apply list_elem_of_In|].
  apply in_flat_map. exists t. split; [by apply list_elem_of_In|].
  unfold live_token in Hlive.
  apply andb_true_iff in Hlive as [Hlive Hexp].
  apply andb_true_iff in Hlive as [Hhash Hscope].
  apply Z.eqb_eq in Hid. rewrite Hid, Hhash, Hscope, Hexp. by left.
Qed.

Lemma UserModel_GetByToken_inv (sha256 : string → string) (scope token : string)
    (st st1 : State) (user : ptr) :
  UserModel_GetByToken sha256 scope token st = (ok user, st1) →
  ∃ r t, fault (db st) = None
         ∧ r ∈ users (db st) ∧ t ∈ tokens (db st)
         ∧ users_id r = tokens_user_id t
         ∧ live_token sha256 scope token (clock st) t = true
         ∧ user = length (heap st)
         ∧ st1 = set_heap (heap st ++ [Scan_user r])
                   (send (Q_Users_GetByToken scope) st).
Proof.
  unfold UserModel_GetByToken. simpl.
  destruct (fst (select_user_by_token (sha256 token) scope (clock st) (db st)))
    as [rows|e] eqn:Hsel; simpl.
  - destruct rows as [|r rows]; simpl; [discriminate|].
    intros [= <- <-].
    destruct (select_user_by_token_elem sha256 scope token (clock st) (db st)
                (r :: rows) r Hsel (list_elem_of_here _ _))
      as (Hfault & Hr & t & Ht & Hid & Hlive).
    exists r, t. done.
  - destruct e; discriminate.
Qed.

Lemma UserModel_GetByToken_none (sha256 : string → string) (scope token : string)
    (st : State) :
  fault (db st) = None →
  (∀ t, t ∈ tokens (db st) →
        live_token sha256 scope token (clock st) t = false) →
  UserModel_GetByToken sha256 scope token st
  = (fail ErrNoRecordFound, send (Q_Users_GetByToken scope) st).
Proof.
  intros Hfault Hnone. unfold UserModel_GetByToken. simpl.
  by rewrite (select_user_by_token_none sha256 scope token (clock st) (db st)
                Hfault Hnone).
Qed.

Lemma live_token_true (sha256 : string → string) (scope token : string)
    (now : Z) (t : tokens_row) :
  live_token sha256 scope token now t = true
  ↔ tokens_hash t = sha256 token ∧ tokens_scope t = scope ∧ now < tokens_expiry t.
Proof.
  unfold live_token. rewrite !andb_true_iff, !String.eqb_eq, Z.ltb_lt.
  tauto.
Qed.

Lemma live_token_false (sha256 : string → string) (scope token : string)
    (now : Z) (t : tokens_row) :
  tokens_hash t ≠ sha256 token ∨ tokens_scope t ≠ scope ∨ tokens_expiry t ≤ now →
  live_token sha256 scope token now t = false.
Proof.
  intros H. apply not_true_is_false. rewrite live_token_true.
  intros (Hh & Hs & He). destruct H as [H|[H|H]]; [done|done|lia].
Qed.

Lemma UserModel_GetByToken_some (sha256 : string → string) (scope token : string)
    (st : State) (u : users_row) (t : tokens_row) :
  fault (db st) = None →
  u ∈ users (db st) → t ∈ tokens (db st) → users_id u = tokens_user_id t →
  live_token sha256 scope token (clock st) t = true →
  ∃ user st1, UserModel_GetByToken sha256 scope token st = (ok user, st1).
Proof.
  intros Hfault Hu Ht Hid Hlive.
  destruct (select_user_by_token_some sha256 scope token (clock st) (db st) u t
              Hfault Hu Ht Hid Hlive) as (r & rows & Hsel).
  unfold UserModel_GetByToken. simpl. rewrite Hsel. simpl. eauto.
Qed.

Lemma load_GetByToken (scope : string) (st : State) (r : users_row) :
  load (length (heap st))
    (set_heap (heap st ++ [Scan_user r]) (send (Q_Users_GetByToken scope) st))
  = Scan_user r.
Proof. unfold load. simpl. by rewrite list_lookup_total_middle. Qed.

(** C3.  Validation of a token fails with the one error
    [ErrNoRecordFound] whenever every stored token record has another
    digest than the hash of the plaintext, or another scope than the
    requested one, or an expiry that is not strictly in the future;
    nothing else of the outcome depends on which of the three it was.
    When a record with that digest and scope and a future expiry is
    stored, and its owner is, validation returns a stored user who
    owns such a record: the owner of that record, the digest being a
    key of the table.  The record returned holds the columns of that
    user's row, each in its field, and no plaintext password. *)
Theorem GetByToken_uniform (sha256 : string → string) (scope token : string)
    (st : State) :
  fault (db st) = None →
  ((∀ t, t ∈ tokens (db st) →
         tokens_hash t ≠ sha256 token ∨ tokens_scope t ≠ scope
         ∨ tokens_expiry t ≤ clock st) →
   UserModel_GetByToken sha256 scope token st
   = (fail ErrNoRecordFound, send (Q_Users_GetByToken scope) st))
  ∧ (∀ t u, t ∈ tokens (db st) →
            tokens_hash t = sha256 token → tokens_scope t = scope →
            clock st < tokens_expiry t →
            u ∈ users (db st) → users_id u = tokens_user_id t →
      ∃ user st1 r,
        UserModel_GetByToken sha256 scope token st = (ok user, st1)
        ∧ load user st1
          = {| User.ID := users_id r; User.Name := users_name r;
               User.Email := users_email r;
               User.Password :=
                 {| plaintext := None; hash := users_password_hash r |};
               User.Activated := users_activated r;
               User.Version := users_version r;
               User.CreatedAt := users_created_at r |}
        ∧ r ∈ users (db st)
        ∧ (∃ t', t' ∈ tokens (db st)
                 ∧ live_token sha256 scope token (clock st) t' = true
                 ∧ users_id r = tokens_user_id t')
        ∧ (digest_is_key (db st) →
           User.ID (load user st1) = tokens_user_id t)).
Proof.
  intros Hfault. split.
  - intros Hnone. apply UserModel_GetByToken_none; [exact Hfault|].
    intros t Ht. apply live_token_false. by apply Hnone.
  - intros t u Ht Hhash Hscope Hexp Hu Hid.
    assert (Hlive : live_token sha256 scope token (clock st) t = true)
      by by apply live_token_true.
    destruct (UserModel_GetByToken_some sha256 scope token st u t
                Hfault Hu Ht Hid Hlive) as (user & st1 & Hrun).
    destruct (UserModel_GetByToken_inv _ _ _ _ _ _ Hrun)
      as (r & t' & _ & Hr & Ht' & Hid' & Hlive' & -> & ->).
    eexists _, _, r.
    split; [exact Hrun|]. rewrite load_GetByToken.
    split; [done|]. split; [exact Hr|]. split; [by exists t'|].
    intros Hkey. simpl. rewrite Hid'. f_equal. apply Hkey; [done|done|].
    apply live_token_true in Hlive' as (-> & _). by rewrite Hhash.
Qed.

Lemma GetByToken_uniform_witness :
  fault (db (start sample_DB 50 (request None))) = None
  ∧ ∃ user st1,
      UserModel_GetByToken sample_sha256 ScopeAuth "SESSION"
        (start sample_DB 50 (request None)) = (ok user, st1)
      ∧ load user st1
        = {| User.ID := 7; User.Name := "Ann"; User.Email := "a@x.com";
             User.Password := {| plaintext := None; hash := "digest" |};
             User.Activated := false; User.Version := 1;
             User.CreatedAt := 0 |}.
Proof.
  split; [reflexivity|].
  destruct (GetByToken_uniform sample_sha256 ScopeAuth "SESSION"
              (start sample_DB 50 (request None)) eq_refl) as [_ Hsome].
  destruct (Hsome
              {| tokens_hash := sample_sha256 "SESSION"; tokens_user_id := 7;
                 tokens_expiry := 100; tokens_scope := ScopeAuth |}
              sample_users_row
              (list_elem_of_further _ _ _ (list_elem_of_here _ _))
              eq_refl eq_refl eq_refl (list_elem_of_here _ _) eq_refl)
    as (user & st1 & r & Hrun & Hload & Hr & _).
  exists user, st1. split; [exact Hrun|].
  apply list_elem_of_singleton in Hr. rewrite Hload, Hr. reflexivity.
Defined.

(* ===================================================================== *)
(** ** Edit conflicts *)
(* ===================================================================== *)

Lemma updates_app (qs qs' : list Query) :
  updates (qs ++ qs') = (updates qs ++ updates qs')%list.
Proof. unfold updates. apply List.filter_app. Qed.

Lemma permission_lookups_app (qs qs' : list Query) :
  permission_lookups (qs ++ qs')
  = (permission_lookups qs ++ permission_lookups qs')%list.
Proof. unfold permission_lookups. apply List.filter_app. Qed.

Lemma updateMovieHandler_conflict (Year : Z → Z) (atoi : Z * option error)
    (bind : result updateMovieInput) (concurrent : DB → DB) (st st1 : State)
    (id : Z) (movie : Movie.t) (input : updateMovieInput) :
  readIDParam atoi = ok id →
  MovieModel_Get id st = (ok movie, st1) →
  bind = ok input →
  Valid (ValidateMovie (Year (clock st)) New (apply_input input movie)) = true →
  fault (concurrent (db st)) = None →
  stale_movie id (Movie.Version movie) (concurrent (db st)) →
  updateMovieHandler Year atoi bind concurrent st
  = (Ret (Some (HTTPError 409 (MsgErrorOf ErrEditConflict))),
     send (Q_Movies_Update id (Movie.Version movie))
       (set_db (concurrent (db st)) (send (Q_Movies_Get id) st))).
Proof.
  intros Hid Hget -> Hvalid Hfault Hstale.
  destruct (MovieModel_Get_inv _ _ _ _ Hget) as (-> & r & _ & Hrid & Hscan).
  apply Scan_movie_ok in Hscan as (HID & _).
  unfold updateMovieHandler. rewrite Hid, Hget. simpl.
  rewrite Hvalid. simpl.
  rewrite MovieModel_Update_conflict; simpl.
  - by rewrite apply_input_ID, apply_input_Version, HID, Hrid.
  - exact Hfault.
  - by rewrite apply_input_ID, apply_input_Version, HID, Hrid.
Qed.

Lemma activateUserHandler_conflict (sha256 : string → string)
    (ValidateTokenPlainText : Validator → string → Validator)
    (bind : result string) (concurrent : DB → DB) (st st1 : State)
    (token : string) (user : ptr) :
  bind = ok token →
  Valid (ValidateTokenPlainText New token) = true →
  UserModel_GetByToken sha256 ScopeActivation token st = (ok user, st1) →
  fault (concurrent (db st)) = None →
  stale_user (User.ID (load user st1)) (User.Version (load user st1))
    (concurrent (db st)) →
  ∃ st', activateUserHandler sha256 ValidateTokenPlainText bind concurrent st
         = (Ret (Some (HTTPError 409 (MsgErrorOf ErrEditConflict))), st')
         ∧ db st' = concurrent (db st)
         ∧ ctx st' = ctx st
         ∧ queries st'
           = (queries st
              ++ [Q_Users_GetByToken ScopeActivation;
                  Q_Users_Update (User.ID (load user st1))
                    (User.Version (load user st1))])%list.
Proof.
  intros -> Hvalid Hget Hfault Hstale.
  destruct (UserModel_GetByToken_inv _ _ _ _ _ _ Hget)
    as (r & t & _ & _ & _ & _ & _ & -> & ->).
  rewrite load_GetByToken in Hstale.
  unfold activateUserHandler. rewrite Hvalid, Hget. simpl.
  set (st2 := store_user _ _ _).
  assert (Hload : load (length (heap st)) st2
                  = User.set_Activated true (Scan_user r)).
  { unfold st2, load, store_user. simpl.
    rewrite list_lookup_total_insert_eq by (rewrite length_app; simpl; lia).
    by rewrite list_lookup_total_middle. }
  rewrite UserModel_Update_conflict; rewrite ?Hload; simpl.
  - eexists. split; [reflexivity|]. rewrite load_GetByToken. simpl.
    split; [done|]. split; [done|]. by rewrite <- app_assoc.
  - exact Hfault.
  - exact Hstale.
Qed.

(** C1.  A conditional update submitted with a version at which the
    resource is no longer stored rewrites no row, leaves the database
    as it was and fails with [ErrEditConflict], for movies and for
    users alike.  The handlers turn that error into an HTTP error
    with status 409; they send the [UPDATE] once and do not send it
    again. *)
Theorem edit_conflict_reported :
  (∀ (movie : Movie.t) (st : State),
      fault (db st) = None →
      stale_movie (Movie.ID movie) (Movie.Version movie) (db st) →
      ∃ st', MovieModel_Update movie st = (movie, Some ErrEditConflict, st')
             ∧ db st' = db st)
  ∧ (∀ (user : ptr) (st : State),
      fault (db st) = None →
      stale_user (User.ID (load user st)) (User.Version (load user st)) (db st) →
      ∃ st', UserModel_Update user st = (Some ErrEditConflict, st')
             ∧ db st' = db st ∧ heap st' = heap st)
  ∧ (∀ (Year : Z → Z) (atoi : Z * option error) (input : updateMovieInput)
       (concurrent : DB → DB) (st st1 : State) (id : Z) (movie : Movie.t),
      readIDParam atoi = ok id →
      MovieModel_Get id st = (ok movie, st1) →
      Valid (ValidateMovie (Year (clock st)) New (apply_input input movie))
      = true →
      fault (concurrent (db st)) = None →
      stale_movie id (Movie.Version movie) (concurrent (db st)) →
      ∃ st', updateMovieHandler Year atoi (ok input) concurrent st
             = (Ret (Some (HTTPError 409 (MsgErrorOf ErrEditConflict))), st')
             ∧ db st' = concurrent (db st)
             ∧ updates (queries st')
               = (updates (queries st)
                  ++ [Q_Movies_Update id (Movie.Version movie)])%list
             ∧ (response (ctx st) = None →
                status (snd (serve (updateMovieHandler Year atoi (ok input)
                                      concurrent) st)) = Some 409))
  ∧ (∀ (sha256 : string → string)
       (ValidateTokenPlainText : Validator → string → Validator)
       (concurrent : DB → DB) (st st1 : State) (token : string) (user : ptr),
      Valid (ValidateTokenPlainText New token) = true →
      UserModel_GetByToken sha256 ScopeActivation token st = (ok user, st1) →
      fault (concurrent (db st)) = None →
      stale_user (User.ID (load user st1)) (User.Version (load user st1))
        (concurrent (db st)) →
      ∃ st', activateUserHandler sha256 ValidateTokenPlainText (ok token)
               concurrent st
             = (Ret (Some (HTTPError 409 (MsgErrorOf ErrEditConflict))), st')
             ∧ db st' = concurrent (db st)
             ∧ updates (queries st')
               = (updates (queries st)
                  ++ [Q_Users_Update (User.ID (load user st1))
                        (User.Version (load user st1))])%list
             ∧ (response (ctx st) = None →
                status (snd (serve (activateUserHandler sha256
                                      ValidateTokenPlainText (ok token)
                                      concurrent) st)) = Some 409)).
Proof.
  split; [|split; [|split]].
  - intros movie st Hfault Hstale.
    rewrite MovieModel_Update_conflict by done. eauto.
  - intros user st Hfault Hstale.
    rewrite UserModel_Update_conflict by done. eauto.
  - intros Year atoi input concurrent st st1 id movie Hid Hget Hvalid Hfault Hstale.
    pose proof (updateMovieHandler_conflict Year atoi (ok input) concurrent st st1
                  id movie input Hid Hget eq_refl Hvalid Hfault Hstale) as Hrun.
    eexists. split; [exact Hrun|]. split; [done|]. split.
    + simpl. rewrite <- app_assoc, updates_app. done.
    + intros Hresp. unfold serve. rewrite Hrun.
      unfold status, customHTTPErrorHandler. simpl. by rewrite Hresp.
  - intros sha256 V concurrent st st1 token user Hvalid Hget Hfault Hstale.
    destruct (activateUserHandler_conflict sha256 V (ok token) concurrent st st1
                token user eq_refl Hvalid Hget Hfault Hstale)
      as (st' & Hrun & Hdb & Hctx & Hqueries).
    exists st'. split; [exact Hrun|]. split; [exact Hdb|]. split.
    + rewrite Hqueries, updates_app. done.
    + intros Hresp. unfold serve. rewrite Hrun.
      unfold status, customHTTPErrorHandler. simpl. by rewrite Hctx, Hresp.
Qed.

Lemma edit_conflict_reported_witness :
  ∃ st',
    updateMovieHandler sample_Year (1, None) (ok sample_input) other_update
      (start sample_DB 50 (request None))
    = (Ret (Some (HTTPError 409 (MsgErrorOf ErrEditConflict))), st')
    ∧ db st' = other_update sample_DB
    ∧ updates (queries st') = [Q_Movies_Update 1 3].
Proof.
  destruct edit_conflict_reported as (_ & _ & Hhandler & _).
  destruct (Hhandler sample_Year (1, None) sample_input other_update
              (start sample_DB 50 (request None))
              (send (Q_Movies_Get 1) (start sample_DB 50 (request None)))
              1 sample_movie eq_refl eq_refl)
    as (st' & Hrun & Hdb & Hupdates & _).
  - vm_compute. reflexivity.
  - reflexivity.
  - intros r Hr _. apply list_elem_of_singleton in Hr. subst r. simpl. lia.
  - exists st'. split; [exact Hrun|]. split; [exact Hdb|]. exact Hupdates.
Defined.

(* ===================================================================== *)
(** ** Partial update of a movie *)
(* ===================================================================== *)


(** The update goes through when the movie is still stored at the
    version read. *)
Lemma updateMovieHandler_succeeds (Year : Z → Z) (atoi : Z * option error)
    (input : updateMovieInput) (concurrent : DB → DB) (st st1 : State)
    (id : Z) (movie : Movie.t) (r : movies_row) :
  readIDParam atoi = ok id →
  MovieModel_Get id st = (ok movie, st1) →
  Valid (ValidateMovie (Year (clock st)) New (apply_input input movie)) = true →
  fault (concurrent (db st)) = None →
  r ∈ movies (concurrent (db st)) →
  movies_id r = id → movies_version r = Movie.Version movie →
  int32_ok (Movie.Version movie + 1) = true →
  ∃ st', updateMovieHandler Year atoi (ok input) concurrent st = (Ret None, st').
Proof.
  intros Hid Hget Hvalid Hfault Hr Hrid Hrv Hrange.
  destruct (MovieModel_Get_inv _ _ _ _ Hget) as (-> & r0 & _ & Hr0id & Hscan).
  apply Scan_movie_ok in Hscan as (HID & _).
  unfold updateMovieHandler. rewrite Hid, Hget. simpl. rewrite Hvalid. simpl.
  destruct (MovieModel_Update_ok (apply_input input movie)
              (set_db (concurrent (db st)) (send (Q_Movies_Get id) st)) r)
    as [st' Hup]; rewrite ?apply_input_ID, ?apply_input_Version; try done.
  - by rewrite HID, Hr0id.
  - rewrite Hup. eauto.
Qed.

Lemma apply_input_fields (input : updateMovieInput) (movie : Movie.t) :
  Movie.Title (apply_input input movie)
  = default (Movie.Title movie) (input_Title input)
  ∧ Movie.Year (apply_input input movie)
    = default (Movie.Year movie) (input_Year input)
  ∧ Movie.Runtime (apply_input input movie)
    = default (Movie.Runtime movie) (input_Runtime input)
  ∧ Movie.Genres (apply_input input movie)
    = match input_Genres input with
      | Some genres => Some genres
      | None => Movie.Genres movie
      end
  ∧ Movie.CreatedAt (apply_input input movie) = Movie.CreatedAt movie.
Proof.
  unfold apply_input.
  by destruct (input_Title input), (input_Year input), (input_Runtime input),
       (input_Genres input).
Qed.



(* ===================================================================== *)
(** ** Activation *)
(* ===================================================================== *)

Lemma TokenModel_DeleteAllForUser_inv (scope : string) (userID : Z)
    (st st' : State) :
  TokenModel_DeleteAllForUser scope userID st = (None, st') →
  fault (db st) = None
  ∧ st' = set_db
            (set_tokens
               (List.filter
                  (fun t => negb (String.eqb (tokens_scope t) scope
                                  && (tokens_user_id t =? userID)))
                  (tokens (db st))) (db st))
            (send (Q_Tokens_DeleteAllForUser scope userID) st).
Proof.
  unfold TokenModel_DeleteAllForUser, delete_tokens, statement. simpl.
  destruct (fault (db st)); simpl; [discriminate|].
  intros [= <-]. done.
Qed.

Lemma load_store_user (p : ptr) (u : User.t) (st : State) :
  (p < length (heap st))%nat → load p (store_user p u st) = u.
Proof.
  intros H. unfold load, store_user. simpl.
  by rewrite list_lookup_total_insert_eq.
Qed.

Lemma load_set_db (p : ptr) (d : DB) (st : State) :
  load p (set_db d st) = load p st.
Proof. done. Qed.

Lemma activateUserHandler_inv (sha256 : string → string)
    (ValidateTokenPlainText : Validator → string → Validator)
    (bind : result string) (concurrent : DB → DB) (st st' : State) :
  activateUserHandler sha256 ValidateTokenPlainText bind concurrent st
  = (Ret None, st') →
  ∃ token r t st2 st3 st4,
    bind = ok token
    ∧ r ∈ users (db st) ∧ t ∈ tokens (db st)
    ∧ users_id r = tokens_user_id t
    ∧ live_token sha256 ScopeActivation token (clock st) t = true
    ∧ st2 = store_user (length (heap st))
              (User.set_Activated true (Scan_user r))
              (set_db (concurrent (db st))
                 (set_heap (heap st ++ [Scan_user r])
                    (send (Q_Users_GetByToken ScopeActivation) st)))
    ∧ load (length (heap st)) st2 = User.set_Activated true (Scan_user r)
    ∧ UserModel_Update (length (heap st)) st2 = (None, st3)
    ∧ TokenModel_DeleteAllForUser ScopeActivation (users_id r) st3 = (None, st4)
    ∧ st' = c_JSON 200
              {[ "message" := V_string "User activated successfully";
                 "user" := V_user (load (length (heap st)) st4) ]} st4.
Proof.
  unfold activateUserHandler.
  destruct bind as [token|e]; [|discriminate].
  destruct (Valid (ValidateTokenPlainText New token)); [|discriminate]. simpl.
  destruct (UserModel_GetByToken sha256 ScopeActivation token st)
    as [[user|e] st1] eqn:Hget; [|destruct e; discriminate].
  destruct (UserModel_GetByToken_inv _ _ _ _ _ _ Hget)
    as (r & t & _ & Hr & Ht & Hid & Hlive & -> & ->).
  cbv zeta. rewrite load_set_db, load_GetByToken.
  set (st2 := store_user _ _ _).
  assert (Hload : load (length (heap st)) st2
                  = User.set_Activated true (Scan_user r)).
  { unfold st2, load, store_user. simpl.
    by rewrite list_lookup_total_insert_eq by (rewrite length_app; simpl; lia). }
  destruct (UserModel_Update (length (heap st)) st2) as [err st3] eqn:Hup.
  destruct err as [e|]; [destruct e; discriminate|].
  assert (Hid3 : User.ID (load (length (heap st)) st3) = users_id r).
  { apply UserModel_Update_inv in Hup as (_ & _ & ->).
    rewrite load_store_user
      by (unfold st2; simpl; rewrite length_insert, length_app; simpl; lia).
    simpl. by rewrite Hload. }
  rewrite Hid3.
  destruct (TokenModel_DeleteAllForUser ScopeActivation (users_id r) st3)
    as [err st4] eqn:Hdel.
  destruct err as [e|]; [discriminate|].
  intros [= <-].
  exists token, r, t, st2, st3, st4. done.
Qed.

(** The activation goes through when the user is still stored at the
    version read, under the keys of the users table. *)
Lemma activateUserHandler_succeeds (sha256 : string → string)
    (ValidateTokenPlainText : Validator → string → Validator)
    (concurrent : DB → DB) (st st1 : State) (token : string) (user : ptr)
    (r : users_row) :
  Valid (ValidateTokenPlainText New token) = true →
  UserModel_GetByToken sha256 ScopeActivation token st = (ok user, st1) →
  fault (concurrent (db st)) = None →
  r ∈ users (concurrent (db st)) →
  users_id r = User.ID (load user st1) →
  users_version r = User.Version (load user st1) →
  NoDup (map users_id (users (concurrent (db st)))) →
  (∀ r', r' ∈ users (concurrent (db st)) →
         users_email r' = User.Email (load user st1) →
         users_id r' = User.ID (load user st1)) →
  ∃ st', activateUserHandler sha256 ValidateTokenPlainText (ok token)
           concurrent st = (Ret None, st').
Proof.
  intros Hvalid Hget Hfault Hr Hrid Hrv Hkey Hemail.
  destruct (UserModel_GetByToken_inv _ _ _ _ _ _ Hget)
    as (r0 & t & _ & _ & _ & _ & _ & -> & ->).
  rewrite load_GetByToken in Hrid, Hrv, Hemail.
  unfold activateUserHandler. rewrite Hvalid, Hget. simpl.
  cbv zeta. rewrite load_set_db, load_GetByToken.
  set (st2 := store_user _ _ _).
  assert (Hload : load (length (heap st)) st2
                  = User.set_Activated true (Scan_user r0)).
  { unfold st2. rewrite load_store_user; [done|].
    simpl. rewrite length_app. simpl. lia. }
  destruct (UserModel_Update_ok (length (heap st)) st2 r) as [st3 Hup];
    rewrite ?Hload; try done.
  rewrite Hup.
  apply UserModel_Update_inv in Hup as (Hfault3 & _ & ->).
  unfold TokenModel_DeleteAllForUser, delete_tokens, statement. simpl.
  change (fault (db st2)) with (fault (concurrent (db st))).
  rewrite Hfault. simpl. eauto.
Qed.

Lemma filter_tokens_elem (scope : string) (userID : Z) (l : list tokens_row)
    (t : tokens_row) :
  t ∈ List.filter
        (fun t => negb (String.eqb (tokens_scope t) scope
                        && (tokens_user_id t =? userID))) l
  ↔ t ∈ l ∧ ¬ (tokens_scope t = scope ∧ tokens_user_id t = userID).
Proof.
  rewrite list_elem_of_In, filter_In, <- list_elem_of_In.
  rewrite negb_true_iff, andb_false_iff, String.eqb_neq, Z.eqb_neq.
  split; intros [Hin H]; (split; [exact Hin|]).
  - intros [Hs Hu]. destruct H; contradiction.
  - destruct (String.eqb_spec (tokens_scope t) scope) as [Hs|Hs];
      [|by left].
    right. intros Hu. by apply H.
Qed.

(** C6.  When the activation handler succeeds, the user the token
    resolved to is stored with [activated] set, no activation token
    of that user is left in the tokens table, and so, the digest being
    a key of that table, validating for activation the plaintext of
    any activation token that user had fails with
    [ErrNoRecordFound], in every later state of that database. *)
Theorem activation_revokes_tokens (sha256 : string → string)
    (ValidateTokenPlainText : Validator → string → Validator)
    (bind : result string) (concurrent : DB → DB) (st st' : State) :
  activateUserHandler sha256 ValidateTokenPlainText bind concurrent st
  = (Ret None, st') →
  ∃ token r,
    bind = ok token
    ∧ r ∈ users (db st)
    ∧ (∃ t, t ∈ tokens (db st)
            ∧ live_token sha256 ScopeActivation token (clock st) t = true
            ∧ tokens_user_id t = users_id r)
    ∧ (∃ i x, users (concurrent (db st)) !! i = Some x
              ∧ users_id x = users_id r ∧ users_version x = users_version r)
    ∧ (∀ i x, users (concurrent (db st)) !! i = Some x →
         users_id x = users_id r → users_version x = users_version r →
         ∃ x', users (db st') !! i = Some x'
               ∧ users_id x' = users_id r ∧ users_activated x' = true)
    ∧ (∀ t, t ∈ tokens (db st') ↔
            t ∈ tokens (concurrent (db st))
            ∧ ¬ (tokens_scope t = ScopeActivation
                 ∧ tokens_user_id t = users_id r))
    ∧ (digest_is_key (concurrent (db st)) →
       ∀ t plaintext st'',
         t ∈ tokens (concurrent (db st)) →
         tokens_scope t = ScopeActivation →
         tokens_user_id t = users_id r →
         tokens_hash t = sha256 plaintext →
         db st'' = db st' →
         UserModel_GetByToken sha256 ScopeActivation plaintext st''
         = (fail ErrNoRecordFound,
            send (Q_Users_GetByToken ScopeActivation) st''))
    ∧ status st' = Some 200.
Proof.
  intros Hrun.
  destruct (activateUserHandler_inv _ _ _ _ _ _ Hrun)
    as (token & r & t & st2 & st3 & st4 & -> & Hr & Ht & Hid & Hlive & Hst2
        & Hload & Hup & Hdel & ->).
  exists token, r. split; [done|]. split; [exact Hr|].
  split; [by exists t|].
  assert (Hvalid : (length (heap st) < length (heap st2))%nat).
  { subst st2. simpl. rewrite length_insert, length_app. simpl. lia. }
  assert (Hdb2 : db st2 = concurrent (db st)) by by subst st2.
  destruct (UserModel_Update_effect _ _ _ Hvalid Hup)
    as (_ & (x & Hx & Hxid & Hxv) & Hhit & _).
  rewrite Hdb2 in Hx. rewrite Hload in Hxid, Hxv. simpl in Hxid, Hxv.
  rewrite Hload, Hdb2 in Hhit. simpl in Hhit.
  apply UserModel_Update_inv in Hup as (Hfault & _ & Hst3).
  apply TokenModel_DeleteAllForUser_inv in Hdel as (_ & Hst4).
  assert (Husers : users (db st4) = users (db st3)) by by subst st4.
  assert (Htokens : ∀ t, t ∈ tokens (db st4) ↔
            t ∈ tokens (concurrent (db st))
            ∧ ¬ (tokens_scope t = ScopeActivation
                 ∧ tokens_user_id t = users_id r)).
  { intros t0. subst st4. simpl. rewrite filter_tokens_elem.
    subst st3. simpl. by rewrite Hdb2. }
  assert (Hfault4 : fault (db st4) = None).
  { subst st4 st3. simpl. exact Hfault. }
  split.
  { apply list_elem_of_lookup in Hx as [i Hi]. by exists i, x. }
  split.
  { intros i y Hy Hyid Hyv. eexists. simpl. rewrite Husers.
    split; [by apply Hhit|]. done. }
  split; [exact Htokens|].
  split; [|done].
  intros Hkey t0 plaintext st'' Ht0 Hscope Howner Hhash Hdb.
  apply UserModel_GetByToken_none.
  - rewrite Hdb. exact Hfault4.
  - intros t1 Ht1. rewrite Hdb in Ht1. simpl in Ht1.
    apply Htokens in Ht1 as [Ht1 Hnot].
    apply not_true_is_false. intros Hlive1.
    apply live_token_true in Hlive1 as (Hh1 & _ & _).
    assert (t1 = t0) by (apply Hkey; [done|done|by rewrite Hh1, Hhash]).
    subst t1. by apply Hnot.
Qed.

Lemma sample_DB_digest_is_key : digest_is_key sample_DB.
Proof.
  intros t1 t2 H1 H2 Hh.
  apply elem_of_cons in H1 as [->|H1];
    [|apply list_elem_of_singleton in H1; subst t1];
    (apply elem_of_cons in H2 as [->|H2];
     [|apply list_elem_of_singleton in H2; subst t2]);
    first [reflexivity | discriminate Hh].
Qed.

Lemma activation_revokes_tokens_witness :
  ∃ st',
    activateUserHandler sample_sha256 sample_ValidateTokenPlainText
      (ok "ACTIVATE") (fun d => d) (start sample_DB 50 (request None))
    = (Ret None, st')
    ∧ users (db st') !! 0%nat
      = Some {| users_id := 7; users_created_at := 0; users_name := "Ann";
                users_email := "a@x.com"; users_password_hash := "digest";
                users_activated := true; users_version := 2 |}
    ∧ fst (UserModel_GetByToken sample_sha256 ScopeActivation "ACTIVATE" st')
      = fail ErrNoRecordFound.
Proof.
  exists (snd (activateUserHandler sample_sha256 sample_ValidateTokenPlainText
                 (ok "ACTIVATE") (fun d => d)
                 (start sample_DB 50 (request None)))).
  assert (Hrun : activateUserHandler sample_sha256 sample_ValidateTokenPlainText
                   (ok "ACTIVATE") (fun d => d)
                   (start sample_DB 50 (request None))
                 = (Ret None,
                    snd (activateUserHandler sample_sha256
                           sample_ValidateTokenPlainText (ok "ACTIVATE")
                           (fun d => d) (start sample_DB 50 (request None)))))
    by (vm_compute; reflexivity).
  split; [exact Hrun|].
  destruct (activation_revokes_tokens _ _ _ _ _ _ Hrun)
    as (token & r & _ & Hr & _ & _ & _ & _ & Hgone & _).
  split; [vm_compute; reflexivity|].
  apply list_elem_of_singleton in Hr. subst r.
  rewrite (Hgone sample_DB_digest_is_key
             {| tokens_hash := sample_sha256 "ACTIVATE"; tokens_user_id := 7;
                tokens_expiry := 100; tokens_scope := ScopeActivation |}
             "ACTIVATE" _ (list_elem_of_here _ _) eq_refl eq_refl eq_refl
             eq_refl).
  reflexivity.
Defined.

(* ===================================================================== *)
(** ** The authenticator *)
(* ===================================================================== *)

Lemma Authenticate_no_credential (sha256 : string → string)
    (ValidateTokenPlainText : Validator → string → Validator)
    (next : HandlerFunc) (st : State) :
  authHeader st = "" →
  Authenticate sha256 ValidateTokenPlainText next st
  = next (c_Set "user" AnonymousUser (vary st)).
Proof.
  unfold authHeader, Authenticate. simpl. intros ->. done.
Qed.

Lemma Authenticate_malformed (sha256 : string → string)
    (ValidateTokenPlainText : Validator → string → Validator)
    (next : HandlerFunc) (st : State) :
  authHeader st ≠ "" →
  (∀ token, Split (authHeader st) " " ≠ ["Bearer"; token]) →
  Authenticate sha256 ValidateTokenPlainText next st = challenge (vary st).
Proof.
  unfold authHeader, Authenticate. simpl. intros Hne Hparts.
  apply String.eqb_neq in Hne. rewrite Hne.
  destruct (Split _ " ") as [|scheme [|token [|x parts]]]; try done.
  destruct (String.eqb_spec scheme "Bearer") as [->|_]; simpl; [|done].
  by destruct (Hparts token).
Qed.

Lemma Authenticate_bad_shape (sha256 : string → string)
    (ValidateTokenPlainText : Validator → string → Validator)
    (next : HandlerFunc) (st : State) (token : string) :
  authHeader st ≠ "" →
  Split (authHeader st) " " = ["Bearer"; token] →
  Valid (ValidateTokenPlainText New token) = false →
  Authenticate sha256 ValidateTokenPlainText next st = challenge (vary st).
Proof.
  unfold authHeader, Authenticate. simpl. intros Hne -> Hshape.
  apply String.eqb_neq in Hne. rewrite Hne. simpl. by rewrite Hshape.
Qed.

Lemma Authenticate_unknown_token (sha256 : string → string)
    (ValidateTokenPlainText : Validator → string → Validator)
    (next : HandlerFunc) (st st1 : State) (token : string) :
  authHeader st ≠ "" →
  Split (authHeader st) " " = ["Bearer"; token] →
  Valid (ValidateTokenPlainText New token) = true →
  UserModel_GetByToken sha256 ScopeAuth token (vary st)
  = (fail ErrNoRecordFound, st1) →
  Authenticate sha256 ValidateTokenPlainText next st = challenge st1.
Proof.
  unfold authHeader, Authenticate. simpl. intros Hne -> Hshape Hget.
  apply String.eqb_neq in Hne. rewrite Hne. simpl. rewrite Hshape. simpl.
  unfold vary in Hget. by rewrite Hget.
Qed.

Lemma Authenticate_resolved (sha256 : string → string)
    (ValidateTokenPlainText : Validator → string → Validator)
    (next : HandlerFunc) (st st1 : State) (token : string) (user : ptr) :
  authHeader st ≠ "" →
  Split (authHeader st) " " = ["Bearer"; token] →
  Valid (ValidateTokenPlainText New token) = true →
  UserModel_GetByToken sha256 ScopeAuth token (vary st) = (ok user, st1) →
  Authenticate sha256 ValidateTokenPlainText next st
  = next (c_Set "user" user st1).
Proof.
  unfold authHeader, Authenticate. simpl. intros Hne -> Hshape Hget.
  apply String.eqb_neq in Hne. rewrite Hne. simpl. rewrite Hshape. simpl.
  unfold vary in Hget. by rewrite Hget.
Qed.

Lemma challenge_header (st : State) :
  response_header (ctx (snd (challenge st))) !! "WWW-Authenticate"
  = Some ["Bearer"].
Proof. unfold challenge, response_Header_Set, Header_Set. simpl. apply lookup_insert_eq. Qed.

Lemma authHeader_absent (st : State) :
  request_header (ctx st) !! "Authorization" = None → authHeader st = "".
Proof. unfold authHeader, Header_Get. by intros ->. Qed.

(* ===================================================================== *)
(** ** The activation gate and the permission gate *)
(* ===================================================================== *)

Lemma RequirePermission_anonymous (permission : string) (next : HandlerFunc)
    (st : State) (user : ptr) :
  store (ctx st) !! "user" = Some user →
  IsAnonymous user = true →
  RequirePermission permission next st
  = (Ret (Some (HTTPError 401
                  (MsgText "you must be autenticated to access this resource"))),
     st).
Proof.
  intros Hctx Hanon. unfold RequirePermission, RequireActivatedUser, c_Get_user.
  by rewrite Hctx, Hanon.
Qed.

Lemma RequirePermission_not_activated (permission : string) (next : HandlerFunc)
    (st : State) (user : ptr) :
  store (ctx st) !! "user" = Some user →
  IsAnonymous user = false →
  User.Activated (load user st) = false →
  RequirePermission permission next st
  = (Ret (Some (HTTPError 403
                  (MsgText "your user account must be activated to access this resource"))),
     st).
Proof.
  intros Hctx Hanon Hact. unfold RequirePermission, RequireActivatedUser, c_Get_user.
  by rewrite Hctx, Hanon, Hact.
Qed.

(** For an activated user the gate does ask the permission store. *)
Lemma RequirePermission_activated (permission : string) (st : State)
    (user : ptr) :
  store (ctx st) !! "user" = Some user →
  IsAnonymous user = false →
  User.Activated (load user st) = true →
  queries (snd (RequirePermission permission accept st))
  = (queries st ++ [Q_Permissions_GetAllForUser (User.ID (load user st))])%list.
Proof.
  intros Hctx Hanon Hact.
  unfold RequirePermission, RequireActivatedUser, c_Get_user.
  rewrite Hctx, Hanon, Hact. simpl.
  unfold select_grants, statement. simpl.
  destruct (fault (db st)); simpl; [done|].
  by destruct (negb (Include _ permission)).
Qed.

(** C4.  The permission gate turns down a request whose identity is
    the anonymous user with status 401, and one whose identity is not
    activated with status 403, for every required permission; in both
    cases the state, and with it the list of queries sent, is what it
    was, so the permission store has not been asked.  The same holds
    of the gate behind the authenticator: a request without
    credential, and a request whose token resolves to a user who is
    not activated, end with 401 and 403 and no permission lookup. *)
Theorem permission_gate_order :
  (∀ (permission : string) (next : HandlerFunc) (st : State) (user : ptr),
      store (ctx st) !! "user" = Some user →
      (IsAnonymous user = true →
       RequirePermission permission next st
       = (Ret (Some (HTTPError 401
                       (MsgText "you must be autenticated to access this resource"))),
          st))
      ∧ (IsAnonymous user = false → User.Activated (load user st) = false →
         RequirePermission permission next st
         = (Ret (Some (HTTPError 403
                         (MsgText "your user account must be activated to access this resource"))),
            st))
      ∧ (IsAnonymous user = true ∨ User.Activated (load user st) = false →
         queries (snd (RequirePermission permission next st)) = queries st))
  ∧ (∀ (sha256 : string → string)
       (ValidateTokenPlainText : Validator → string → Validator)
       (permission : string) (next : HandlerFunc) (st : State),
      authHeader st = "" →
      ∃ st', Authenticate sha256 ValidateTokenPlainText
               (RequirePermission permission next) st
             = (Ret (Some (HTTPError 401
                             (MsgText "you must be autenticated to access this resource"))),
                st')
             ∧ queries st' = queries st)
  ∧ (∀ (sha256 : string → string)
       (ValidateTokenPlainText : Validator → string → Validator)
       (permission : string) (next : HandlerFunc) (st st1 : State)
       (token : string) (user : ptr),
      heap_initialised st →
      authHeader st ≠ "" →
      Split (authHeader st) " " = ["Bearer"; token] →
      Valid (ValidateTokenPlainText New token) = true →
      UserModel_GetByToken sha256 ScopeAuth token (vary st) = (ok user, st1) →
      User.Activated (load user st1) = false →
      ∃ st', Authenticate sha256 ValidateTokenPlainText
               (RequirePermission permission next) st
             = (Ret (Some (HTTPError 403
                             (MsgText "your user account must be activated to access this resource"))),
                st')
             ∧ permission_lookups (queries st') = permission_lookups (queries st)).
Proof.
  split; [|split].
  - intros permission next st user Hctx. split; [|split].
    + by apply RequirePermission_anonymous.
    + by apply RequirePermission_not_activated.
    + destruct (IsAnonymous user) eqn:Hanon.
      * intros _. by rewrite (RequirePermission_anonymous _ _ _ user).
      * intros [?|Hact]; [done|].
        by rewrite (RequirePermission_not_activated _ _ _ user).
  - intros sha256 V permission next st Hh.
    rewrite Authenticate_no_credential by exact Hh.
    eexists. split.
    + apply (RequirePermission_anonymous _ _ _ AnonymousUser); [|done].
      simpl. apply lookup_insert_eq.
    + reflexivity.
  - intros sha256 V permission next st st1 token user Hinit Hne Hsplit Hshape
      Hget Hact.
    rewrite (Authenticate_resolved _ _ _ _ st1 token user) by done.
    destruct (UserModel_GetByToken_inv _ _ _ _ _ _ Hget)
      as (r & t & _ & _ & _ & _ & _ & -> & ->).
    eexists. split.
    + apply (RequirePermission_not_activated _ _ _ (length (heap st))).
      * simpl. apply lookup_insert_eq.
      * apply Nat.eqb_neq. unfold heap_initialised in Hinit.
        unfold AnonymousUser. lia.
      * exact Hact.
    + simpl. rewrite permission_lookups_app. simpl. apply app_nil_r.
Qed.

Lemma permission_gate_order_witness :
  (∃ st', Authenticate sample_sha256 sample_ValidateTokenPlainText
            (RequirePermission "movies:write" accept)
            (start sample_DB 50 (request None))
          = (Ret (Some (HTTPError 401
                          (MsgText "you must be autenticated to access this resource"))),
             st')
          ∧ queries st' = [])
  ∧ (∃ st', Authenticate sample_sha256 sample_ValidateTokenPlainText
              (RequirePermission "movies:read" accept) bearer_session
            = (Ret (Some (HTTPError 403
                            (MsgText "your user account must be activated to access this resource"))),
               st')
            ∧ permission_lookups (queries st') = []).
Proof.
  destruct permission_gate_order as (_ & Hanon & Hinactive).
  split.
  - apply (Hanon sample_sha256 sample_ValidateTokenPlainText "movies:write"
             accept (start sample_DB 50 (request None))).
    reflexivity.
  - apply (Hinactive sample_sha256 sample_ValidateTokenPlainText "movies:read"
             accept bearer_session
             (snd (UserModel_GetByToken sample_sha256 ScopeAuth "SESSION"
                     (vary bearer_session)))
             "SESSION" 1%nat).
    + unfold heap_initialised. simpl. lia.
    + discriminate.
    + reflexivity.
    + reflexivity.
    + vm_compute. reflexivity.
    + vm_compute. reflexivity.
Defined.

(** C5, as the program has it.  When no [Authorization] header is
    present, or the value read from it is empty, the anonymous user is
    put in the context and the request goes on.  A non-empty value
    that does not split at spaces into exactly ["Bearer"] and a token,
    or whose token fails the shape check, is turned down with status
    401 and the response header [WWW-Authenticate: Bearer]; so is a
    token of the right shape that no stored record validates.  A token
    that validates puts the user it resolves to in the context, and
    only then does the rest of the chain run. *)
Theorem Authenticate_resolves (sha256 : string → string)
    (ValidateTokenPlainText : Validator → string → Validator)
    (next : HandlerFunc) (st : State) :
  (request_header (ctx st) !! "Authorization" = None → authHeader st = "")
  ∧ (authHeader st = "" →
     Authenticate sha256 ValidateTokenPlainText next st
     = next (c_Set "user" AnonymousUser (vary st))
     ∧ store (ctx (c_Set "user" AnonymousUser (vary st))) !! "user"
       = Some AnonymousUser)
  ∧ (authHeader st ≠ "" →
     (∀ token, Split (authHeader st) " " ≠ ["Bearer"; token]) →
     Authenticate sha256 ValidateTokenPlainText next st = challenge (vary st))
  ∧ (∀ token,
       authHeader st ≠ "" →
       Split (authHeader st) " " = ["Bearer"; token] →
       Valid (ValidateTokenPlainText New token) = false →
       Authenticate sha256 ValidateTokenPlainText next st = challenge (vary st))
  ∧ (∀ token,
       authHeader st ≠ "" →
       Split (authHeader st) " " = ["Bearer"; token] →
       Valid (ValidateTokenPlainText New token) = true →
       fault (db st) = None →
       (∀ t, t ∈ tokens (db st) →
             live_token sha256 ScopeAuth token (clock st) t = false) →
       Authenticate sha256 ValidateTokenPlainText next st
       = challenge (send (Q_Users_GetByToken ScopeAuth) (vary st)))
  ∧ (∀ token user st1,
       authHeader st ≠ "" →
       Split (authHeader st) " " = ["Bearer"; token] →
       Valid (ValidateTokenPlainText New token) = true →
       UserModel_GetByToken sha256 ScopeAuth token (vary st) = (ok user, st1) →
       Authenticate sha256 ValidateTokenPlainText next st
       = next (c_Set "user" user st1)
       ∧ store (ctx (c_Set "user" user st1)) !! "user" = Some user)
  ∧ (∀ s, fst (challenge s)
          = Ret (Some (HTTPError 401 (MsgText "invalid authentication token")))
          ∧ response_header (ctx (snd (challenge s))) !! "WWW-Authenticate"
            = Some ["Bearer"]).
Proof.
  split; [apply authHeader_absent|].
  split.
  { intros Hh. split; [by apply Authenticate_no_credential|].
    simpl. apply lookup_insert_eq. }
  split; [apply Authenticate_malformed|].
  split; [intros token; apply Authenticate_bad_shape|].
  split.
  { intros token Hne Hsplit Hshape Hfault Hnone.
    apply (Authenticate_unknown_token _ _ _ _ _ token); try done.
    by apply UserModel_GetByToken_none. }
  split.
  { intros token user st1 Hne Hsplit Hshape Hget.
    split; [by apply (Authenticate_resolved _ _ _ _ _ token)|].
    simpl. apply lookup_insert_eq. }
  intros s. split; [done | apply challenge_header].
Qed.

Lemma Authenticate_resolves_witness :
  ∃ st1,
    Authenticate sample_sha256 sample_ValidateTokenPlainText accept
      bearer_session
    = accept (c_Set "user" 1%nat st1)
    ∧ load 1%nat st1 = Scan_user sample_users_row.
Proof.
  destruct (Authenticate_resolves sample_sha256 sample_ValidateTokenPlainText
              accept bearer_session) as (_ & _ & _ & _ & _ & Hresolved & _).
  exists (snd (UserModel_GetByToken sample_sha256 ScopeAuth "SESSION"
                 (vary bearer_session))).
  split; [|vm_compute; reflexivity].
  apply (Hresolved "SESSION" 1%nat).
  - discriminate.
  - reflexivity.
  - reflexivity.
  - vm_compute. reflexivity.
Defined.

(** C5 as it was stated fails on a request whose [Authorization]
    header is present with an empty value: the value is not
    ["Bearer"] and a token, yet the request is not turned down; it
    goes on as the anonymous user and gets no challenge. *)
Lemma Authenticate_empty_header_continues :
  request_header (ctx empty_authorization) !! "Authorization" = Some [""]
  ∧ (∀ token, Split (authHeader empty_authorization) " " ≠ ["Bearer"; token])
  ∧ fst (Authenticate sample_sha256 sample_ValidateTokenPlainText accept
           empty_authorization) = Ret None
  ∧ fst (Authenticate sample_sha256 sample_ValidateTokenPlainText accept
           empty_authorization)
    ≠ Ret (Some (HTTPError 401 (MsgText "invalid authentication token")))
  ∧ store (ctx (snd (Authenticate sample_sha256 sample_ValidateTokenPlainText
                       accept empty_authorization))) !! "user"
    = Some AnonymousUser
  ∧ response_header
      (ctx (snd (Authenticate sample_sha256 sample_ValidateTokenPlainText
                   accept empty_authorization))) !! "WWW-Authenticate"
    = None.
Proof.
  split; [vm_compute; reflexivity|].
  split; [intros token; discriminate|].
  split; [reflexivity|].
  split; [discriminate|].
  split; vm_compute; reflexivity.
Qed.

(* ===================================================================== *)
(** ** Further properties: the validator *)
(* ===================================================================== *)

Lemma size_list_to_set_le (l : list string) :
  (size (list_to_set l : gset string) ≤ length l)%nat.
Proof.
  induction l as [|a l IH].
  - rewrite list_to_set_nil, size_empty. done.
  - rewrite list_to_set_cons, size_union_alt, size_singleton. simpl.
    pose proof (subseteq_size (list_to_set l ∖ {[a]} : gset string)
                  (list_to_set l)) as H.
    assert (Hsub : (list_to_set l ∖ {[a]} : gset string) ⊆ list_to_set l)
      by by apply subseteq_difference_l.
    specialize (H Hsub). lia.
Qed.

Lemma Unique_NoDup_1 (values : list string) :
  Unique values = true → NoDup values.
Proof.
  unfold Unique. rewrite Nat.eqb_eq.
  induction values as [|a l IH]; intros H; [constructor|].
  rewrite list_to_set_cons in H. simpl in H.
  destruct (decide (a ∈ l)) as [Hin|Hnotin].
  - assert (E : ({[a]} ∪ list_to_set l : gset string) = list_to_set l).
    { apply subseteq_union_1_L, singleton_subseteq_l.
      by apply elem_of_list_to_set. }
    rewrite E in H. pose proof (size_list_to_set_le l). lia.
  - rewrite size_union, size_singleton in H
      by (apply disjoint_singleton_l; by rewrite elem_of_list_to_set).
    apply NoDup_cons. split; [exact Hnotin|]. apply IH. lia.
Qed.

Lemma Unique_NoDup_2 (values : list string) :
  NoDup values → Unique values = true.
Proof.
  intros H. unfold Unique. apply Nat.eqb_eq. symmetry.
  by apply size_list_to_set.
Qed.

(** X1.  [validator.Unique] holds exactly of the lists without a
    repeated element. *)
Theorem Unique_iff_NoDup (values : list string) :
  Unique values = true ↔ NoDup values.
Proof.
  split.
  - apply Unique_NoDup_1.
  - apply Unique_NoDup_2.
Qed.

Lemma AddError_lookup_kept (v : Validator) (key key' m m' : string) :
  Errors v !! key = Some m → Errors (AddError v key' m') !! key = Some m.
Proof.
  intros H. unfold AddError.
  destruct (Errors v !! key') as [x|] eqn:E; [exact H|]. simpl.
  rewrite lookup_insert_ne; [exact H|]. intros ->. congruence.
Qed.

Lemma Check_lookup_kept (v : Validator) (b : bool) (key key' m m' : string) :
  Errors v !! key = Some m → Errors (Check v b key' m') !! key = Some m.
Proof.
  intros H. unfold Check. destruct (negb b); [|exact H].
  by apply AddError_lookup_kept.
Qed.

Lemma Check_invalid_kept (v : Validator) (b : bool) (key m : string) :
  Valid v = false → Valid (Check v b key m) = false.
Proof.
  intros H. unfold Check. destruct (negb b); [|exact H].
  apply AddError_not_Valid.
Qed.

(** X2.  An error recorded for a key stays: no later [AddError] or
    [Check], for that key or another, replaces or removes it, so the
    message reported for a field is the first one recorded, and a
    validator that is not valid never becomes valid again. *)
Theorem recorded_error_is_kept (v : Validator) (key m : string) :
  Errors v !! key = Some m →
  (∀ key' m', Errors (AddError v key' m') !! key = Some m)
  ∧ (∀ b key' m', Errors (Check v b key' m') !! key = Some m)
  ∧ (∀ b key' m', Valid (Check v b key' m') = false).
Proof.
  intros H. split; [|split].
  - intros key' m'. by apply AddError_lookup_kept.
  - intros b key' m'. by apply Check_lookup_kept.
  - intros b key' m'. apply Check_invalid_kept.
    unfold Valid. apply Nat.eqb_neq.
    apply (map_size_ne_0_lookup_2 _ key). by exists m.
Qed.

Lemma recorded_error_is_kept_witness :
  Errors (AddError New "title" "title must be provided") !! "title"
  = Some "title must be provided"
  ∧ Errors (AddError (AddError New "title" "title must be provided")
              "title" "title should be less than or equal to 500 characters long")
    !! "title" = Some "title must be provided".
Proof.
  assert (H : Errors (AddError New "title" "title must be provided") !! "title"
              = Some "title must be provided") by (vm_compute; reflexivity).
  split; [exact H|].
  destruct (recorded_error_is_kept _ _ _ H) as (Hadd & _).
  apply Hadd.
Defined.

Lemma In_iff (value : string) (l : list string) :
  In_ value l = true ↔ value ∈ l.
Proof.
  induction l as [|a l IH]; simpl.
  - split; [discriminate | by intros ?%elem_of_nil].
  - rewrite elem_of_cons. destruct (String.eqb_spec a value) as [->|Hne].
    + split; [by left | done].
    + rewrite IH. split; [by right | intros [->|H]; done].
Qed.

Lemma Valid_New : Valid New = true.
Proof. reflexivity. Qed.

Lemma Valid_Errors_empty (v : Validator) : Valid v = true → Errors v = ∅.
Proof. unfold Valid. rewrite Nat.eqb_eq. apply map_size_empty_iff. Qed.

(* ===================================================================== *)
(** ** Further properties: the filters *)
(* ===================================================================== *)

(** X3.  [ValidateFilters] accepts a filter exactly when the page is
    at least 1, the page size is between 1 and 100 and the sort value
    is in the safe list.  The page has no upper bound: the bound of
    ten million is tested on the page size, where the bound of 100
    already holds. *)
Theorem ValidateFilters_accepts (f : Filter) :
  Valid (ValidateFilters New f) = true
  ↔ 1 ≤ Page f ∧ 1 ≤ PageSize f ≤ 100 ∧ Sort f ∈ SortSafeList f.
Proof.
  unfold ValidateFilters. split.
  - intros H.
    apply Check_Valid in H as [Hsort H].
    apply Check_Valid in H as [Hsize H].
    apply Check_Valid in H as [Hpage _].
    apply andb_true_iff in Hsize as [H1 H2].
    apply andb_true_iff in Hpage as [H3 _].
    apply In_iff in Hsort.
    apply Z.leb_le in H1, H2, H3. done.
  - intros (Hpage & Hsize & Hsort).
    apply In_iff in Hsort. rewrite Hsort.
    assert (E1 : (1 <=? Page f) && (PageSize f <=? 10000000) = true)
      by (apply andb_true_iff; split; lia).
    assert (E2 : (1 <=? PageSize f) && (PageSize f <=? 100) = true)
      by (apply andb_true_iff; split; lia).
    by rewrite E1, E2.
Qed.

(** X4.  An invalid sort value is reported under the key
    ["page_size"], and only when the page size itself is in range:
    when the page size is out of range its message takes the key and
    the invalid sort value is not reported at all. *)
Theorem ValidateFilters_sort_error (f : Filter) :
  1 ≤ Page f →
  Sort f ∉ SortSafeList f →
  (1 ≤ PageSize f ≤ 100 →
   Errors (ValidateFilters New f) = {[ "page_size" := "invalid sort value" ]})
  ∧ (¬ (1 ≤ PageSize f ≤ 100) → PageSize f ≤ 10000000 →
     Errors (ValidateFilters New f)
     = {[ "page_size" := "page size must be between 1 and 100" ]}).
Proof.
  intros Hpage Hsort.
  assert (Hin : In_ (Sort f) (SortSafeList f) = false).
  { apply not_true_is_false. by rewrite In_iff. }
  unfold ValidateFilters. rewrite Hin. split.
  - intros Hsize.
    assert (E1 : (1 <=? Page f) && (PageSize f <=? 10000000) = true)
      by (apply andb_true_iff; split; lia).
    assert (E2 : (1 <=? PageSize f) && (PageSize f <=? 100) = true)
      by (apply andb_true_iff; split; lia).
    rewrite E1, E2. reflexivity.
  - intros Hsize Hbig.
    assert (E1 : (1 <=? Page f) && (PageSize f <=? 10000000) = true)
      by (apply andb_true_iff; split; lia).
    assert (E2 : (1 <=? PageSize f) && (PageSize f <=? 100) = false).
    { apply andb_false_iff.
      destruct (Z.leb_spec 1 (PageSize f)); [right|by left].
      apply Z.leb_gt. lia. }
    rewrite E1, E2. reflexivity.
Qed.

Lemma ValidateFilters_sort_error_witness :
  Errors (ValidateFilters New
            {| Page := 1; PageSize := 500; Sort := "rating";
               SortSafeList := ["id"; "title"] |})
  = {[ "page_size" := "page size must be between 1 and 100" ]}.
Proof.
  assert (Hsort : "rating" ∉ ["id"; "title"]).
  { intros H. apply elem_of_cons in H as [H|H]; [discriminate H|].
    apply list_elem_of_singleton in H. discriminate H. }
  destruct (ValidateFilters_sort_error
              {| Page := 1; PageSize := 500; Sort := "rating";
                 SortSafeList := ["id"; "title"] |}
              ltac:(simpl; lia) Hsort) as [_ Hhidden].
  apply Hhidden; simpl; lia.
Defined.

Lemma HasPrefix_dash (s : string) :
  HasPrefix s "-" = true → s = String "-" (TrimPrefix s "-").
Proof.
  intros H. unfold TrimPrefix. rewrite H. unfold HasPrefix in H.
  destruct s as [|a s]; [discriminate H|].
  change (match Ascii.ascii_dec "-" a with
          | left _ => String.prefix "" s
          | right _ => false
          end = true) in H.
  destruct (Ascii.ascii_dec "-" a) as [<-|]; [|discriminate H].
  reflexivity.
Qed.

(** X5.  [sortColumn] panics exactly when the sort value is not in
    the safe list.  When it returns, the column and the direction
    together give the sort value back: ["-"] followed by the column
    when the direction is ["DESC"], the column itself when it is
    ["ASC"]. *)
Theorem sortColumn_sortDirection (f : Filter) :
  ((∃ p, sortColumn f = Panic p) ↔ Sort f ∉ SortSafeList f)
  ∧ (∀ column, sortColumn f = Ret column →
       Sort f ∈ SortSafeList f
       ∧ (sortDirection f = "DESC" ∧ Sort f = String "-" column
          ∨ sortDirection f = "ASC" ∧ Sort f = column)).
Proof.
  unfold sortColumn, sortDirection.
  destruct (In_ (Sort f) (SortSafeList f)) eqn:Hin.
  - rewrite (sortColumn_loop_In _ _ Hin). apply In_iff in Hin. split.
    + split; [intros [p Hp]; discriminate | done].
    + intros column [= <-]. split; [exact Hin|].
      destruct (HasPrefix (Sort f) "-") eqn:Hp.
      * left. split; [done|]. by apply HasPrefix_dash.
      * right. split; [done|]. unfold TrimPrefix. by rewrite Hp.
  - rewrite (sortColumn_loop_not_In _ _ Hin).
    assert (Hnot : Sort f ∉ SortSafeList f).
    { intros H. apply In_iff in H. congruence. }
    split; [split; [done | eauto] | discriminate].
Qed.

(* ===================================================================== *)
(** ** Further properties: reading the request *)
(* ===================================================================== *)

Lemma readInt_lookup_other (Atoi : string → Z * option error)
    (qs : gmap string (list string)) (key key' : string) (d : Z) :
  key ≠ key' → Errors (snd (readInt Atoi qs key d New)) !! key' = None.
Proof.
  intros Hne. unfold readInt.
  destruct (String.eqb (Values_Get qs key) ""); [done|].
  destruct (Atoi (Values_Get qs key)) as [i [e|]]; [|done].
  unfold AddError. simpl. rewrite lookup_empty. simpl.
  by rewrite lookup_insert_ne.
Qed.

Lemma readInt_error (Atoi : string → Z * option error)
    (qs : gmap string (list string)) (key : string) (d : Z) (v : Validator) :
  Values_Get qs key ≠ "" →
  snd (Atoi (Values_Get qs key)) ≠ None →
  Errors v !! key = None →
  Errors (snd (readInt Atoi qs key d v)) !! key = Some "must be an integer value".
Proof.
  intros Hne Herr Hfree. unfold readInt.
  apply String.eqb_neq in Hne. rewrite Hne.
  destruct (Atoi (Values_Get qs key)) as [i [e|]]; [|done].
  simpl. unfold AddError. rewrite Hfree. simpl. apply lookup_insert_eq.
Qed.

Lemma readInt_keeps (Atoi : string → Z * option error)
    (qs : gmap string (list string)) (key key' m : string) (d : Z)
    (v : Validator) :
  Errors v !! key' = Some m →
  Errors (snd (readInt Atoi qs key d v)) !! key' = Some m.
Proof.
  intros H. unfold readInt.
  destruct (String.eqb (Values_Get qs key) ""); [done|].
  destruct (Atoi (Values_Get qs key)) as [i [e|]]; [|done].
  simpl. by apply AddError_lookup_kept.
Qed.

(** X6.  Whatever the query parameters are, when the validator of
    [getMoviesHandler] is valid the sort value of its filter is one of
    the eight of the safe list, so [sortColumn] does not panic and the
    column it returns for the [ORDER BY] clause is one of [id],
    [title], [year] and [runtime]; the page is at least 1 and the page
    size between 1 and 100. *)
Theorem getMoviesHandler_sort_is_safe (Atoi : string → Z * option error)
    (qs : gmap string (list string)) :
  Valid (snd (getMoviesHandler_input Atoi qs)) = true →
  ∃ column,
    sortColumn (snd (fst (getMoviesHandler_input Atoi qs))) = Ret column
    ∧ column ∈ ["id"; "title"; "year"; "runtime"]
    ∧ sortDirection (snd (fst (getMoviesHandler_input Atoi qs)))
      ∈ ["ASC"; "DESC"]
    ∧ 1 ≤ Page (snd (fst (getMoviesHandler_input Atoi qs)))
    ∧ 1 ≤ PageSize (snd (fst (getMoviesHandler_input Atoi qs))) ≤ 100.
Proof.
  unfold getMoviesHandler_input.
  destruct (readInt Atoi qs "page" 1 New) as [page v1].
  destruct (readInt Atoi qs "page_size" 5 v1) as [pageSize v2].
  remember (readString qs "sort" "id") as sort eqn:Esort. clear Esort.
  cbn [fst snd]. unfold ValidateFilters. cbn [Page PageSize Sort SortSafeList].
  intros H.
  apply Check_Valid in H as [Hsort H].
  apply Check_Valid in H as [Hsize H].
  apply Check_Valid in H as [Hpage _].
  apply andb_true_iff in Hsize as [H1 H2].
  apply andb_true_iff in Hpage as [H3 _].
  apply Z.leb_le in H1, H2, H3.
  unfold sortColumn, sortDirection. cbn [Page PageSize Sort SortSafeList].
  apply In_iff in Hsort.
  repeat (apply elem_of_cons in Hsort as [->|Hsort]);
    [..|by apply elem_of_nil in Hsort];
    eexists; (split; [reflexivity|]);
    (split; [repeat first [apply list_elem_of_here | apply list_elem_of_further]|]);
    (split; [repeat first [apply list_elem_of_here | apply list_elem_of_further]|]);
    done.
Qed.

Lemma getMoviesHandler_sort_is_safe_witness :
  sortColumn
    (snd (fst (getMoviesHandler_input sample_Atoi
                 {[ "sort" := ["-title"]; "page" := ["2"] ]})))
  = Ret "title".
Proof.
  destruct (getMoviesHandler_sort_is_safe sample_Atoi
              {[ "sort" := ["-title"]; "page" := ["2"] ]})
    as (column & Hcolumn & _).
  - vm_compute. reflexivity.
  - rewrite Hcolumn. vm_compute in Hcolumn. symmetry. exact Hcolumn.
Defined.

Lemma Check_lookup_inv (v : Validator) (b : bool) (key key' m' x : string) :
  Errors (Check v b key' m') !! key = Some x →
  Errors v !! key = Some x ∨ key = key' ∧ x = m'.
Proof.
  unfold Check, AddError. destruct (negb b); [|by left].
  destruct (Errors v !! key') eqn:E; [by left|]. simpl.
  destruct (decide (key' = key)) as [<-|Hne].
  - rewrite lookup_insert_eq. intros [= <-]. by right.
  - rewrite lookup_insert_ne by done. by left.
Qed.

Lemma readInt_empty (Atoi : string → Z * option error)
    (qs : gmap string (list string)) (key : string) (d : Z) (v : Validator) :
  Values_Get qs key = "" → readInt Atoi qs key d v = (d, v).
Proof. intros H. unfold readInt. by rewrite H. Qed.

(** X7.  A [page] or [page_size] parameter whose value is not empty
    and is not an integer makes the request invalid, and the message
    reported for it is ["must be an integer value"], not a message
    about the range of the default value that is used in its place.
    A parameter that is absent, or present with an empty value, is
    not read at all: the filter gets the default, 1 for the page and
    5 for the page size, and that message is not reported for it,
    whatever [Atoi] makes of the empty string. *)
Theorem getMoviesHandler_rejects_non_integer
    (Atoi : string → Z * option error) (qs : gmap string (list string))
    (key : string) :
  key = "page" ∨ key = "page_size" →
  (Values_Get qs key ≠ "" →
   snd (Atoi (Values_Get qs key)) ≠ None →
   Valid (snd (getMoviesHandler_input Atoi qs)) = false
   ∧ Errors (snd (getMoviesHandler_input Atoi qs)) !! key
     = Some "must be an integer value")
  ∧ (Values_Get qs key = "" →
     Errors (snd (getMoviesHandler_input Atoi qs)) !! key
     ≠ Some "must be an integer value"
     ∧ (key = "page" →
        Page (snd (fst (getMoviesHandler_input Atoi qs))) = 1)
     ∧ (key = "page_size" →
        PageSize (snd (fst (getMoviesHandler_input Atoi qs))) = 5)).
Proof.
  intros Hkey. split.
  - intros Hne Herr.
    assert (Hrec : Errors (snd (getMoviesHandler_input Atoi qs)) !! key
                   = Some "must be an integer value").
    { unfold getMoviesHandler_input.
      destruct (readInt Atoi qs "page" 1 New) as [page v1] eqn:E1.
      destruct (readInt Atoi qs "page_size" 5 v1) as [pageSize v2] eqn:E2.
      simpl. unfold ValidateFilters.
      do 3 apply Check_lookup_kept.
      replace v2 with (snd (readInt Atoi qs "page_size" 5 v1)) by by rewrite E2.
      replace v1 with (snd (readInt Atoi qs "page" 1 New)) by by rewrite E1.
      destruct Hkey as [->| ->].
      - apply readInt_keeps. by apply readInt_error.
      - apply readInt_error; [done|done|]. by apply readInt_lookup_other. }
    split; [|exact Hrec].
    unfold Valid. apply Nat.eqb_neq.
    apply (map_size_ne_0_lookup_2 _ key). eauto.
  - intros Hempty. unfold getMoviesHandler_input.
    destruct (readInt Atoi qs "page" 1 New) as [page v1] eqn:E1.
    destruct (readInt Atoi qs "page_size" 5 v1) as [pageSize v2] eqn:E2.
    cbn [fst snd Page PageSize]. split; [|split].
    + unfold ValidateFilters. cbv zeta. intros H.
      apply Check_lookup_inv in H as [H|[_ H]]; [|discriminate].
      apply Check_lookup_inv in H as [H|[_ H]]; [|discriminate].
      apply Check_lookup_inv in H as [H|[_ H]]; [|discriminate].
      destruct Hkey as [->| ->].
      * rewrite readInt_empty in E1 by done. injection E1 as <- <-.
        assert (Hfree : Errors (snd (readInt Atoi qs "page_size" 5 New))
                        !! "page" = None)
          by by apply readInt_lookup_other.
        rewrite E2 in Hfree. simpl in Hfree. congruence.
      * rewrite readInt_empty in E2 by done. injection E2 as <- <-.
        assert (Hfree : Errors (snd (readInt Atoi qs "page" 1 New))
                        !! "page_size" = None)
          by by apply readInt_lookup_other.
        rewrite E1 in Hfree. simpl in Hfree. congruence.
    + intros ->. rewrite readInt_empty in E1 by done. by injection E1 as <- <-.
    + intros ->. rewrite readInt_empty in E2 by done. by injection E2 as <- <-.
Qed.

Lemma getMoviesHandler_rejects_non_integer_witness :
  Errors (snd (getMoviesHandler_input sample_Atoi {[ "page_size" := ["many"] ]}))
  !! "page_size" = Some "must be an integer value".
Proof.
  destruct (getMoviesHandler_rejects_non_integer sample_Atoi
              {[ "page_size" := ["many"] ]} "page_size") as [H _].
  - by right.
  - apply H; discriminate.
Defined.

Lemma Split_nonempty (s : string) (sep : ascii) :
  ∃ part parts, Split s sep = part :: parts.
Proof.
  destruct s as [|a s]; simpl; [by eauto|].
  destruct (Ascii.eqb a sep); [by eauto|].
  destruct (Split s sep); eauto.
Qed.

Lemma concat_Split (s : string) (sep : ascii) :
  String.concat (String sep "") (Split s sep) = s.
Proof.
  induction s as [|a s IH]; simpl; [done|].
  destruct (Split_nonempty s sep) as (part & parts & E).
  rewrite E in IH |- *.
  destruct (Ascii.eqb_spec a sep) as [->|_].
  - rewrite <- IH. reflexivity.
  - rewrite <- IH. destruct parts as [|q parts]; reflexivity.
Qed.

Lemma Split_parts (s : string) (sep : ascii) (part : string) :
  part ∈ Split s sep → sep ∉ list_ascii_of_string part.
Proof.
  revert part. induction s as [|a s IH]; simpl; intros part Hpart.
  - apply list_elem_of_singleton in Hpart. subst part. simpl.
    apply not_elem_of_nil.
  - destruct (Ascii.eqb_spec a sep) as [->|Hne].
    + apply elem_of_cons in Hpart as [->|Hpart]; [apply not_elem_of_nil|].
      by apply IH.
    + destruct (Split_nonempty s sep) as (p & ps & E). rewrite E in *.
      apply elem_of_cons in Hpart as [->|Hpart].
      * simpl. apply not_elem_of_cons. split; [congruence|].
        apply IH, list_elem_of_here.
      * apply IH. by apply list_elem_of_further.
Qed.

(** X8.  [readCSV] returns the default when the parameter is absent
    or empty.  Otherwise it returns at least one part, no part holds a
    comma, and the parts joined by commas give the parameter back. *)
Theorem readCSV_parts (qs : gmap string (list string)) (key : string)
    (defaultValue : list string) :
  (Values_Get qs key = "" → readCSV qs key defaultValue = defaultValue)
  ∧ (Values_Get qs key ≠ "" →
     readCSV qs key defaultValue ≠ []
     ∧ String.concat "," (readCSV qs key defaultValue) = Values_Get qs key
     ∧ ∀ part, part ∈ readCSV qs key defaultValue →
               ","%char ∉ list_ascii_of_string part).
Proof.
  unfold readCSV. split.
  - intros ->. done.
  - intros Hne. apply String.eqb_neq in Hne. rewrite Hne.
    split; [|split].
    + destruct (Split_nonempty (Values_Get qs key) ",") as (p & ps & ->).
      discriminate.
    + apply concat_Split.
    + intros part. apply Split_parts.
Qed.

(** X9.  [ValidateMovie] accepts a movie exactly when the title is not
    empty and at most 500 bytes long, the year is between 1888 and the
    current year, the runtime is positive, and the genres are a list
    of one to five values none of which is repeated. *)
Theorem ValidateMovie_accepts (currentYear : Z) (movie : Movie.t) :
  Valid (ValidateMovie currentYear New movie) = true
  ↔ Movie.Title movie ≠ ""
    ∧ (String.length (Movie.Title movie) ≤ 500)%nat
    ∧ 1888 ≤ Movie.Year movie ≤ to_int32 currentYear
    ∧ 0 < Movie.Runtime movie
    ∧ ∃ genres, Movie.Genres movie = Some genres
                ∧ (1 ≤ length genres ≤ 5)%nat ∧ NoDup genres.
Proof.
  unfold ValidateMovie. cbv zeta. split.
  - intros H.
    apply Check_Valid in H as [Hunique H].
    apply Check_Valid in H as [Hlen H].
    apply Check_Valid in H as [Hsome H].
    apply Check_Valid in H as [Hruntime H].
    apply Check_Valid in H as [Hyear H].
    apply Check_Valid in H as [_ H].
    apply Check_Valid in H as [Hshort H].
    apply Check_Valid in H as [Htitle _].
    apply negb_true_iff, String.eqb_neq in Htitle.
    apply Nat.leb_le in Hshort.
    apply andb_true_iff in Hyear as [Hy1 Hy2].
    apply Z.leb_le in Hy1, Hy2. apply Z.ltb_lt in Hruntime.
    apply bool_decide_eq_true in Hsome.
    destruct (Movie.Genres movie) as [genres|]; [|done].
    change (default [] (Some genres)) with genres in *.
    apply andb_true_iff in Hlen as [Hl1 Hl2].
    apply Nat.leb_le in Hl1, Hl2. apply Unique_NoDup_1 in Hunique.
    do 4 (split; [done|]). by exists genres.
  - intros (Htitle & Hshort & [Hy1 Hy2] & Hruntime & genres & Hg & [Hl1 Hl2] & Hnd).
    rewrite Hg. change (default [] (Some genres)) with genres.
    apply String.eqb_neq in Htitle. rewrite Htitle.
    apply Nat.leb_le in Hshort, Hl1, Hl2. rewrite Hshort, Hl1, Hl2.
    assert (E0 : (Movie.Year movie =? 0) = false) by (apply Z.eqb_neq; lia).
    apply Z.leb_le in Hy1, Hy2. apply Z.ltb_lt in Hruntime.
    rewrite E0, Hy1, Hy2, Hruntime, (Unique_NoDup_2 _ Hnd).
    reflexivity.
Qed.

(** X10.  A request for an id below 1 is answered 404 by the show,
    delete and update handlers without a statement being sent: the
    state, the database in it, is untouched, and this is so even when
    the store is failing. *)
Theorem ids_below_one_not_found (Year : Z → Z) (id : Z)
    (bind : result updateMovieInput) (concurrent : DB → DB) (st : State) :
  id < 1 →
  showMovieHandler (id, None) st
  = (Ret (Some (HTTPError 404 (MsgText "Movie not found"))), st)
  ∧ deleteMovieHandler (id, None) st
    = (Ret (Some (HTTPError 404 (MsgErrorOf ErrNoRecordFound))), st)
  ∧ updateMovieHandler Year (id, None) bind concurrent st
    = (Ret (Some (HTTPError 404 (MsgErrorOf ErrNoRecordFound))), st).
Proof.
  intros Hid. apply Z.ltb_lt in Hid.
  unfold showMovieHandler, deleteMovieHandler, updateMovieHandler,
    MovieModel_Get, MovieModel_Delete.
  simpl. rewrite Hid. done.
Qed.

Lemma ids_below_one_not_found_witness :
  showMovieHandler (0, None) (start (failing_DB "connection refused") 50
                                (request None))
  = (Ret (Some (HTTPError 404 (MsgText "Movie not found"))),
     start (failing_DB "connection refused") 50 (request None)).
Proof.
  apply (ids_below_one_not_found sample_Year 0 (ok sample_input) (fun d => d)).
  lia.
Defined.

Lemma MovieModel_Delete_inv (id : Z) (st st' : State) :
  MovieModel_Delete id st = (None, st') →
  1 ≤ id ∧ fault (db st) = None
  ∧ (∃ r, r ∈ movies (db st) ∧ movies_id r = id)
  ∧ st' = set_db (set_movies
                    (List.filter (fun r => negb (movies_id r =? id))
                       (movies (db st))) (db st)) st.
Proof.
  unfold MovieModel_Delete, delete_movie, statement.
  destruct (Z.ltb_spec id 1); [discriminate|].
  destruct (fault (db st)); simpl; [discriminate|].
  destruct (List.filter (fun r => movies_id r =? id) (movies (db st)))
    as [|r rest] eqn:E; simpl; [discriminate|].
  intros [= <-].
  apply filter_head_elem in E as [Hin Hid]. apply Z.eqb_eq in Hid.
  split; [done|]. split; [done|]. split; [by exists r|done].
Qed.

(** X11.  When the delete handler succeeds a movie with the id was
    stored, afterwards none is: every row of another id is kept, in
    order, and no row of the id is; the show handler answers 404 for
    the id, and a second delete does too.  The delete takes no
    version: it removes the movie at whatever version it is stored. *)
Theorem delete_then_show (atoi : Z * option error) (st st' : State) :
  deleteMovieHandler atoi st = (Ret None, st') →
  ∃ id,
    readIDParam atoi = ok id
    ∧ (∃ r, r ∈ movies (db st) ∧ movies_id r = id)
    ∧ movies (db st')
      = List.filter (fun r => negb (movies_id r =? id)) (movies (db st))
    ∧ (∀ st'', db st'' = db st' →
         fst (showMovieHandler atoi st'')
         = Ret (Some (HTTPError 404 (MsgText "Movie not found")))
         ∧ fst (deleteMovieHandler atoi st'')
           = Ret (Some (HTTPError 404 (MsgErrorOf ErrNoRecordFound)))).
Proof.
  unfold deleteMovieHandler.
  destruct (readIDParam atoi) as [id|e] eqn:Hid; [|discriminate].
  destruct (MovieModel_Delete id st) as [[e|] st1] eqn:Hdel;
    [destruct e; discriminate|].
  intros [= <-].
  apply MovieModel_Delete_inv in Hdel as (Hpos & Hfault & Hrow & ->).
  exists id. split; [done|]. split; [exact Hrow|]. split; [done|].
  intros st'' Hdb. simpl in Hdb.
  assert (Hnone : List.filter (fun r => movies_id r =? id) (movies (db st''))
                  = []).
  { rewrite Hdb. simpl. apply filter_all_false.
    intros r Hr. apply list_elem_of_In, filter_In in Hr as [_ Hr].
    by apply negb_true_iff in Hr. }
  assert (Hlt : (id <? 1) = false) by (apply Z.ltb_ge; lia).
  split.
  - unfold showMovieHandler, MovieModel_Get, select_movie, statement.
    rewrite Hid, Hlt. simpl. rewrite Hdb. simpl. rewrite Hfault. simpl.
    rewrite Hdb in Hnone. simpl in Hnone. by rewrite Hnone.
  - unfold MovieModel_Delete, delete_movie, statement.
    rewrite Hlt. simpl. rewrite Hdb. simpl. rewrite Hfault. simpl.
    rewrite Hdb in Hnone. simpl in Hnone. by rewrite Hnone.
Qed.

Lemma delete_then_show_witness :
  ∃ st', deleteMovieHandler (1, None) (start sample_DB 50 (request None))
         = (Ret None, st')
         ∧ movies (db st') = []
         ∧ fst (showMovieHandler (1, None) st')
           = Ret (Some (HTTPError 404 (MsgText "Movie not found"))).
Proof.
  exists (snd (deleteMovieHandler (1, None) (start sample_DB 50 (request None)))).
  assert (Hrun : deleteMovieHandler (1, None) (start sample_DB 50 (request None))
                 = (Ret None,
                    snd (deleteMovieHandler (1, None)
                           (start sample_DB 50 (request None)))))
    by (vm_compute; reflexivity).
  split; [exact Hrun|].
  destruct (delete_then_show _ _ _ Hrun) as (id & _ & _ & Hrows & Hafter).
  split; [vm_compute; reflexivity|].
  apply (Hafter _ eq_refl).
Defined.

Lemma filter_key_unique {A : Type} (f : A → Z) (l : list A) (x : A) :
  NoDup (map f l) → x ∈ l → List.filter (fun r => f r =? f x) l = [x].
Proof.
  induction l as [|a l IH]; intros Hnodup Hx; [by apply elem_of_nil in Hx|].
  simpl in Hnodup. apply NoDup_cons in Hnodup as [Hnotin Hnodup].
  assert (Hother : ∀ r, r ∈ l → f r ≠ f a).
  { intros r Hr E. apply Hnotin. rewrite <- E.
    apply list_elem_of_In, in_map, list_elem_of_In, Hr. }
  apply elem_of_cons in Hx as [->|Hx]; simpl.
  - rewrite Z.eqb_refl. f_equal. apply filter_all_false.
    intros r Hr. apply Z.eqb_neq. by apply Hother.
  - assert (E : (f a =? f x) = false).
    { apply Z.eqb_neq. intros E. by apply (Hother x Hx). }
    rewrite E. by apply IH.
Qed.

Lemma filter_map_preserved {A : Type} (p : A → bool) (g : A → A) (l : list A) :
  (∀ r, p (g r) = p r) → List.filter p (map g l) = map g (List.filter p l).
Proof.
  intros H. induction l as [|a l IH]; simpl; [done|].
  rewrite H. destruct (p a); simpl; by rewrite IH.
Qed.

Lemma movie_update_id (title : string) (year runtime : Z)
    (genres : option (list string)) (id version : Z) (r : movies_row) :
  movies_id (if movie_hit id version r
             then movie_set title year runtime genres r else r)
  = movies_id r
  ∧ movies_created_at (if movie_hit id version r
                       then movie_set title year runtime genres r else r)
    = movies_created_at r.
Proof. by destruct (movie_hit id version r). Qed.

(** X12.  A movie with an id of at least 1 that was updated reads back
    as it was written: the id being a key of the table, and the year
    and the runtime being in the range of their [int32] fields, a
    [Get] of the id after a successful [Update] returns the fields the
    update was called with, the creation time of the stored row and
    the version the update handed back.  [Update] has no guard on the
    id, [Get] has: a movie stored under an id below 1 can be updated,
    and a [Get] of it afterwards still answers [ErrNoRecordFound],
    without a query. *)
Theorem Update_then_Get (movie movie' : Movie.t) (st st' : State) :
  MovieModel_Update movie st = (movie', None, st') →
  (1 ≤ Movie.ID movie →
   NoDup (map movies_id (movies (db st))) →
   int32_ok (Movie.Year movie) = true →
   int32_ok (Movie.Runtime movie) = true →
   ∃ r, r ∈ movies (db st) ∧ movies_id r = Movie.ID movie
        ∧ fst (MovieModel_Get (Movie.ID movie) st')
          = ok {| Movie.ID := Movie.ID movie;
                  Movie.Title := Movie.Title movie;
                  Movie.Year := Movie.Year movie;
                  Movie.Runtime := Movie.Runtime movie;
                  Movie.Genres := Movie.Genres movie;
                  Movie.CreatedAt := movies_created_at r;
                  Movie.Version := Movie.Version movie' |})
  ∧ (Movie.ID movie < 1 →
     (∃ r, r ∈ movies (db st) ∧ movies_id r = Movie.ID movie)
     ∧ MovieModel_Get (Movie.ID movie) st' = (fail ErrNoRecordFound, st')).
Proof.
  intros Hup.
  apply MovieModel_Update_inv in Hup
    as (Hfault & (r & Hr & Hhit) & Hrange & -> & ->).
  pose proof Hhit as Hhit'. apply movie_hit_true in Hhit' as [Hid Hv].
  split.
  - intros Hpos Hkey Hyear Hruntime.
    exists r. split; [exact Hr|]. split; [exact Hid|].
    unfold MovieModel_Get, select_movie, statement.
    assert (Hlt : (Movie.ID movie <? 1) = false) by (apply Z.ltb_ge; lia).
    rewrite Hlt. simpl. rewrite Hfault. simpl.
    rewrite filter_map_preserved
      by (intros x; by rewrite (proj1 (movie_update_id _ _ _ _ _ _ x))).
    assert (E : List.filter (fun x => movies_id x =? Movie.ID movie)
                  (movies (db st)) = [r]).
    { rewrite <- Hid. by apply filter_key_unique. }
    rewrite E. simpl.
    rewrite Hhit. unfold Scan_movie. simpl.
    rewrite Hyear, Hruntime, Hv, Hrange. simpl. by rewrite Hid.
  - intros Hlow. split; [by exists r|].
    unfold MovieModel_Get.
    assert (Hlt : (Movie.ID movie <? 1) = true) by (apply Z.ltb_lt; lia).
    by rewrite Hlt.
Qed.

Lemma Update_then_Get_witness :
  fst (MovieModel_Get 1
         (snd (MovieModel_Update (Movie.set_Runtime 110 sample_movie)
                 (start sample_DB 50 (request None)))))
  = ok {| Movie.ID := 1; Movie.Title := "Casablanca"; Movie.Year := 1942;
          Movie.Runtime := 110; Movie.Genres := Some ["drama"; "romance"];
          Movie.CreatedAt := 0; Movie.Version := 4 |}.
Proof.
  destruct (Update_then_Get (Movie.set_Runtime 110 sample_movie)
              (Movie.set_Version 4 (Movie.set_Runtime 110 sample_movie))
              (start sample_DB 50 (request None))
              (snd (MovieModel_Update (Movie.set_Runtime 110 sample_movie)
                      (start sample_DB 50 (request None)))))
    as [Hget _].
  - vm_compute. reflexivity.
  - destruct Hget as (r & Hr & _ & H).
    + simpl. lia.
    + simpl. apply NoDup_cons. split; [apply not_elem_of_nil | apply NoDup_nil_2].
    + reflexivity.
    + reflexivity.
    + apply list_elem_of_singleton in Hr. rewrite Hr in H.
      etransitivity; [exact H|]. reflexivity.
Defined.

Lemma stale_after_update (movie : Movie.t) (l : list movies_row) (r' : movies_row) :
  r' ∈ map (fun r => if movie_hit (Movie.ID movie) (Movie.Version movie) r
                     then movie_set (Movie.Title movie) (Movie.Year movie)
                            (Movie.Runtime movie) (Movie.Genres movie) r
                     else r) l →
  movies_id r' = Movie.ID movie → movies_version r' ≠ Movie.Version movie.
Proof.
  intros Hin Hid Hv.
  apply list_elem_of_In, in_map_iff in Hin as (r & <- & _).
  destruct (movie_hit (Movie.ID movie) (Movie.Version movie) r) eqn:Hhit.
  - apply movie_hit_true in Hhit as [_ Hrv]. simpl in Hv. lia.
  - assert (movie_hit (Movie.ID movie) (Movie.Version movie) r = true)
      by by apply movie_hit_true.
    congruence.
Qed.

(** X13.  After a successful update the copy of the movie that the
    caller had before is stale: submitting it again rewrites nothing
    and fails with [ErrEditConflict].  The copy the update handed
    back carries the new version: submitting it goes through and
    moves the version on by one more. *)
Theorem Update_chains (movie movie' : Movie.t) (st st' : State) :
  MovieModel_Update movie st = (movie', None, st') →
  (∃ st'', MovieModel_Update movie st' = (movie, Some ErrEditConflict, st'')
           ∧ db st'' = db st')
  ∧ (int32_ok (Movie.Version movie + 2) = true →
     ∃ st'', MovieModel_Update movie' st'
             = (Movie.set_Version (Movie.Version movie + 2) movie', None, st'')).
Proof.
  intros Hup.
  apply MovieModel_Update_inv in Hup
    as (Hfault & (r & Hr & Hhit) & Hrange & -> & ->).
  split.
  - rewrite MovieModel_Update_conflict; [by eauto|exact Hfault|].
    intros r' Hr'. simpl in Hr'. exact (stale_after_update movie _ r' Hr').
  - intros Hrange2.
    apply movie_hit_true in Hhit as [Hid Hv].
    replace (Movie.Version movie + 2) with (Movie.Version movie + 1 + 1) in *
      by lia.
    apply (MovieModel_Update_ok
             (Movie.set_Version (Movie.Version movie + 1) movie) _
             (movie_set (Movie.Title movie) (Movie.Year movie)
                (Movie.Runtime movie) (Movie.Genres movie) r)).
    + exact Hfault.
    + simpl. apply list_elem_of_In, in_map_iff. exists r.
      split; [|by apply list_elem_of_In].
      assert (E : movie_hit (Movie.ID movie) (Movie.Version movie) r = true)
        by by apply movie_hit_true.
      by rewrite E.
    + exact Hid.
    + simpl. by rewrite Hv.
    + exact Hrange2.
Qed.

Lemma Update_chains_witness :
  ∃ st'',
    MovieModel_Update sample_movie
      (snd (MovieModel_Update sample_movie (start sample_DB 50 (request None))))
    = (sample_movie, Some ErrEditConflict, st'').
Proof.
  destruct (Update_chains sample_movie (Movie.set_Version 4 sample_movie)
              (start sample_DB 50 (request None))
              (snd (MovieModel_Update sample_movie
                      (start sample_DB 50 (request None)))))
    as [(st'' & H & _) _].
  - vm_compute. reflexivity.
  - by exists st''.
Defined.

Lemma map_update_same {A B : Type} (f : A → B) (g : A → A) (l : list A) :
  (∀ r, f (g r) = f r) → map f (map g l) = map f l.
Proof.
  intros H. rewrite map_map. apply map_ext. exact H.
Qed.

Lemma user_update_id (name email password_hash : string) (activated : bool)
    (id version : Z) (r : users_row) :
  users_id (if user_hit id version r
            then user_set name email password_hash activated r else r)
  = users_id r
  ∧ users_created_at (if user_hit id version r
                      then user_set name email password_hash activated r
                      else r)
    = users_created_at r.
Proof. by destruct (user_hit id version r). Qed.

(** X14.  Whatever its outcome, an update neither adds nor removes a
    row and changes no id and no creation time: the ids and the
    creation times of the table are, in order, what they were, and
    the other tables are untouched.  The update of a movie leaves the
    heap alone; the update of a user writes at most the record it was
    called with. *)
Theorem Update_keeps_rows :
  (∀ (movie : Movie.t) (st : State),
      map movies_id (movies (db (snd (MovieModel_Update movie st))))
      = map movies_id (movies (db st))
      ∧ map movies_created_at (movies (db (snd (MovieModel_Update movie st))))
        = map movies_created_at (movies (db st))
      ∧ users (db (snd (MovieModel_Update movie st))) = users (db st)
      ∧ tokens (db (snd (MovieModel_Update movie st))) = tokens (db st)
      ∧ grants (db (snd (MovieModel_Update movie st))) = grants (db st)
      ∧ heap (snd (MovieModel_Update movie st)) = heap st)
  ∧ (∀ (user : ptr) (st : State),
      map users_id (users (db (snd (UserModel_Update user st))))
      = map users_id (users (db st))
      ∧ map users_created_at (users (db (snd (UserModel_Update user st))))
        = map users_created_at (users (db st))
      ∧ movies (db (snd (UserModel_Update user st))) = movies (db st)
      ∧ tokens (db (snd (UserModel_Update user st))) = tokens (db st)
      ∧ grants (db (snd (UserModel_Update user st))) = grants (db st)
      ∧ ∀ p, p ≠ user →
             load p (snd (UserModel_Update user st)) = load p st).
Proof.
  split.
  - intros movie st. unfold MovieModel_Update, update_movie, statement. simpl.
    destruct (fault (db st)); simpl; [done|].
    assert (Hid : map movies_id
                    (map (fun r => if movie_hit (Movie.ID movie)
                                        (Movie.Version movie) r
                                   then movie_set (Movie.Title movie)
                                          (Movie.Year movie) (Movie.Runtime movie)
                                          (Movie.Genres movie) r
                                   else r) (movies (db st)))
                  = map movies_id (movies (db st))).
    { apply map_update_same. intros r. apply movie_update_id. }
    assert (Hc : map movies_created_at
                   (map (fun r => if movie_hit (Movie.ID movie)
                                       (Movie.Version movie) r
                                  then movie_set (Movie.Title movie)
                                         (Movie.Year movie) (Movie.Runtime movie)
                                         (Movie.Genres movie) r
                                  else r) (movies (db st)))
                 = map movies_created_at (movies (db st))).
    { apply map_update_same. intros r. apply movie_update_id. }
    destruct (List.filter _ (movies (db st))) as [|r rest]; simpl; [done|].
    by destruct (int32_ok (movies_version r + 1)).
  - intros user st. unfold UserModel_Update, update_user. simpl.
    destruct (fault (db st)) as [msg|]; simpl.
    { by destruct (String.eqb msg users_email_key_violation). }
    match goal with
    | |- context [if ?c then _ else _] => destruct c
    end; simpl.
    { done. }
    assert (Hid : map users_id
                    (map (fun r => if user_hit (User.ID (load user st))
                                        (User.Version (load user st)) r
                                   then user_set (User.Name (load user st))
                                          (User.Email (load user st))
                                          (hash (User.Password (load user st)))
                                          (User.Activated (load user st)) r
                                   else r) (users (db st)))
                  = map users_id (users (db st))).
    { apply map_update_same. intros r. apply user_update_id. }
    assert (Hc : map users_created_at
                   (map (fun r => if user_hit (User.ID (load user st))
                                       (User.Version (load user st)) r
                                  then user_set (User.Name (load user st))
                                         (User.Email (load user st))
                                         (hash (User.Password (load user st)))
                                         (User.Activated (load user st)) r
                                  else r) (users (db st)))
                 = map users_created_at (users (db st))).
    { apply map_update_same. intros r. apply user_update_id. }
    destruct (List.filter _ (users (db st))) as [|r rest]; simpl; [done|].
    do 5 (split; [done|]).
    intros p Hp. unfold load. simpl.
    by apply list_lookup_total_insert_ne.
Qed.




(* ===================================================================== *)
(** ** Further properties: users *)
(* ===================================================================== *)

(** X16.  [GetByEmail] fails with [ErrNoRecordFound] when no user has
    the email and succeeds when one has.  What it returns is a fresh
    record, not the anonymous user, holding the email asked for and,
    each in its field, the other columns of a stored row with that
    email, and no plaintext password; the database and the records
    that existed before are as they were. *)
Theorem GetByEmail_returns (email : string) (st : State) :
  fault (db st) = None →
  ((∀ r, r ∈ users (db st) → users_email r ≠ email) →
   UserModel_GetByEmail email st = (fail ErrNoRecordFound, st))
  ∧ ((∃ r, r ∈ users (db st) ∧ users_email r = email) →
     ∃ user st1, UserModel_GetByEmail email st = (ok user, st1))
  ∧ (∀ user st1,
       UserModel_GetByEmail email st = (ok user, st1) →
       (∃ r, r ∈ users (db st) ∧ users_email r = email
             ∧ load user st1
               = {| User.ID := users_id r; User.Name := users_name r;
                    User.Email := email;
                    User.Password :=
                      {| plaintext := None; hash := users_password_hash r |};
                    User.Activated := users_activated r;
                    User.Version := users_version r;
                    User.CreatedAt := users_created_at r |})
       ∧ plaintext (User.Password (load user st1)) = None
       ∧ db st1 = db st
       ∧ (heap_initialised st → IsAnonymous user = false)
       ∧ ∀ p, (p < length (heap st))%nat → load p st1 = load p st).
Proof.
  intros Hfault. unfold UserModel_GetByEmail, select_user_by_email, statement.
  rewrite Hfault. simpl. split; [|split].
  - intros Hnone. rewrite filter_all_false; [done|].
    intros r Hr. apply String.eqb_neq. by apply Hnone.
  - intros (r & Hr & He).
    destruct (List.filter _ (users (db st))) as [|x xs] eqn:E; simpl.
    + exfalso. eapply filter_elem_nonempty; [exact Hr| |exact E].
      simpl. by apply String.eqb_eq.
    + eauto.
  - intros user st1.
    destruct (List.filter _ (users (db st))) as [|x xs] eqn:E; simpl;
      [discriminate|].
    intros [= <- <-].
    apply filter_head_elem in E as [Hx He]. apply String.eqb_eq in He.
    assert (Hload : load (length (heap st)) (set_heap (heap st ++ [Scan_user x]) st)
                    = Scan_user x).
    { unfold load. simpl. by rewrite list_lookup_total_middle. }
    rewrite Hload. split.
    { exists x. split; [done|]. split; [done|]. rewrite <- He. reflexivity. }
    split; [done|]. split; [done|]. split.
    + intros Hinit. apply Nat.eqb_neq. unfold heap_initialised in Hinit.
      unfold AnonymousUser. lia.
    + intros p Hp. unfold load. simpl. by apply lookup_total_app_l.
Qed.

Lemma GetByEmail_returns_witness :
  ∃ user st1,
    UserModel_GetByEmail "a@x.com" (start sample_DB 50 (request None))
    = (ok user, st1)
    ∧ load user st1
      = {| User.ID := 7; User.Name := "Ann"; User.Email := "a@x.com";
           User.Password := {| plaintext := None; hash := "digest" |};
           User.Activated := false; User.Version := 1;
           User.CreatedAt := 0 |}.
Proof.
  destruct (GetByEmail_returns "a@x.com" (start sample_DB 50 (request None))
              eq_refl) as (_ & Hsome & Hok).
  destruct Hsome as (user & st1 & Hrun).
  { exists sample_users_row. split; [apply list_elem_of_here | reflexivity]. }
  exists user, st1. split; [exact Hrun|].
  destruct (Hok user st1 Hrun) as ((r & Hr & _ & Hload) & _).
  apply list_elem_of_singleton in Hr. rewrite Hload, Hr. reflexivity.
Defined.

Lemma UserModel_Update_heap (user : ptr) (st : State) :
  heap (snd (UserModel_Update user st)) = heap st
  ∨ ∃ u, heap (snd (UserModel_Update user st)) = <[user := u]> (heap st).
Proof.
  unfold UserModel_Update. simpl.
  destruct (update_user _ _ _ _ _ _ _) as [[rows|e] d]; simpl.
  - destruct rows as [|v rows]; simpl; [by left|]. right. eauto.
  - left. destruct e; try done.
    by destruct (String.eqb msg users_email_key_violation).
Qed.

Lemma TokenModel_DeleteAllForUser_heap (scope : string) (userID : Z)
    (st : State) :
  heap (snd (TokenModel_DeleteAllForUser scope userID st)) = heap st.
Proof.
  unfold TokenModel_DeleteAllForUser.
  destruct (delete_tokens _ _ _) as [[?|?] d]; done.
Qed.

Lemma UserModel_GetByToken_heap (sha256 : string → string)
    (scope token : string) (st : State) :
  match UserModel_GetByToken sha256 scope token st with
  | (ok user, st1) =>
      user = length (heap st) ∧ ∃ u, heap st1 = (heap st ++ [u])%list
  | (fail _, st1) => heap st1 = heap st
  end.
Proof.
  unfold UserModel_GetByToken. simpl.
  destruct (QueryRow _) as [r|e]; simpl; [by eauto|].
  by destruct e.
Qed.

(** X17.  The activation handler writes no user record that existed
    before the request, whatever its outcome: every such record, the
    one of the anonymous user among them, holds afterwards what it
    held before.  The handler works on the record it read itself. *)
Theorem activateUserHandler_keeps_records (sha256 : string → string)
    (ValidateTokenPlainText : Validator → string → Validator)
    (bind : result string) (concurrent : DB → DB) (st : State) (p : ptr) :
  (p < length (heap st))%nat →
  load p (snd (activateUserHandler sha256 ValidateTokenPlainText bind
                 concurrent st))
  = load p st.
Proof.
  intros Hp. unfold activateUserHandler.
  destruct bind as [token|e]; [|done].
  destruct (negb (Valid (ValidateTokenPlainText New token))); [done|].
  pose proof (UserModel_GetByToken_heap sha256 ScopeActivation token st) as Hget.
  destruct (UserModel_GetByToken sha256 ScopeActivation token st)
    as [[user|e] st1].
  2:{ unfold load. by destruct e; simpl; rewrite Hget. }
  destruct Hget as (-> & u & Hheap1).
  cbv zeta.
  set (st2 := store_user _ _ _).
  assert (Hload2 : load p st2 = load p st).
  { unfold st2, load, store_user. simpl. rewrite Hheap1.
    rewrite list_lookup_total_insert_ne by lia.
    by apply lookup_total_app_l. }
  assert (Hkeep : ∀ s, (heap s = heap st2
                        ∨ ∃ x, heap s = <[length (heap st) := x]> (heap st2)) →
                       load p s = load p st).
  { intros s [Hs|[x Hs]]; rewrite <- Hload2; unfold load; rewrite Hs; [done|].
    apply list_lookup_total_insert_ne. lia. }
  pose proof (UserModel_Update_heap (length (heap st)) st2) as Hup.
  destruct (UserModel_Update (length (heap st)) st2) as [err st3].
  simpl in Hup.
  destruct err as [e|].
  { destruct e; simpl; by apply Hkeep. }
  pose proof (TokenModel_DeleteAllForUser_heap ScopeActivation
                (User.ID (load (length (heap st)) st3)) st3) as Hdel.
  destruct (TokenModel_DeleteAllForUser _ _ st3) as [err st4].
  simpl in Hdel. rewrite <- Hdel in Hup.
  destruct err as [e|]; simpl; apply Hkeep; exact Hup.
Qed.

Lemma activateUserHandler_keeps_records_witness :
  load AnonymousUser
    (snd (activateUserHandler sample_sha256 sample_ValidateTokenPlainText
            (ok "ACTIVATE") (fun d => d) (start sample_DB 50 (request None))))
  = User.zero.
Proof.
  apply (activateUserHandler_keeps_records sample_sha256
           sample_ValidateTokenPlainText (ok "ACTIVATE") (fun d => d)
           (start sample_DB 50 (request None)) AnonymousUser).
  unfold AnonymousUser. simpl. lia.
Defined.

(** X18.  A token that no stored record validates for activation, be
    it unknown, expired or issued for another scope, is answered 422
    with the one message ["invalid or expired activation token"]
    under the key ["token"]; the handler sends no [UPDATE] and the
    database is untouched. *)
Theorem activateUserHandler_unknown_token (sha256 : string → string)
    (ValidateTokenPlainText : Validator → string → Validator)
    (concurrent : DB → DB) (st : State) (token : string) :
  Valid (ValidateTokenPlainText New token) = true →
  fault (db st) = None →
  (∀ t, t ∈ tokens (db st) →
        live_token sha256 ScopeActivation token (clock st) t = false) →
  activateUserHandler sha256 ValidateTokenPlainText (ok token) concurrent st
  = (Ret (Some (HTTPError 422
                  (MsgErrors
                     {[ "token" := "invalid or expired activation token" ]}))),
     send (Q_Users_GetByToken ScopeActivation) st).
Proof.
  intros Hvalid Hfault Hnone. unfold activateUserHandler.
  rewrite Hvalid. simpl.
  rewrite UserModel_GetByToken_none by done.
  unfold AddError. rewrite (Valid_Errors_empty _ Hvalid).
  rewrite lookup_empty. reflexivity.
Qed.

Lemma activateUserHandler_unknown_token_witness :
  activateUserHandler sample_sha256 sample_ValidateTokenPlainText
    (ok "SESSION") (fun d => d) (start sample_DB 50 (request None))
  = (Ret (Some (HTTPError 422
                  (MsgErrors
                     {[ "token" := "invalid or expired activation token" ]}))),
     send (Q_Users_GetByToken ScopeActivation)
       (start sample_DB 50 (request None))).
Proof.
  apply activateUserHandler_unknown_token.
  - reflexivity.
  - reflexivity.
  - intros t Ht.
    apply elem_of_cons in Ht as [->|Ht]; [reflexivity|].
    apply list_elem_of_singleton in Ht. subst t. reflexivity.
Defined.

(* ===================================================================== *)
(** ** Further properties: handlers and middleware *)
(* ===================================================================== *)

Lemma AddError_lookup_other (v : Validator) (key key' m' : string) :
  key ≠ key' → Errors (AddError v key' m') !! key = Errors v !! key.
Proof.
  intros Hne. unfold AddError.
  destruct (Errors v !! key'); [done|]. simpl.
  by rewrite lookup_insert_ne.
Qed.

Lemma Check_lookup_other (v : Validator) (b : bool) (key key' m' : string) :
  key ≠ key' → Errors (Check v b key' m') !! key = Errors v !! key.
Proof.
  intros Hne. unfold Check. destruct (negb b); [|done].
  by apply AddError_lookup_other.
Qed.

(** X19.  An update whose body supplies an empty list of genres is
    not valid, whatever the movie and the other fields of the body
    are, and the message reported for the genres is the one about
    their number. *)
Theorem empty_genres_rejected (currentYear : Z) (input : updateMovieInput)
    (movie : Movie.t) :
  input_Genres input = Some [] →
  Valid (ValidateMovie currentYear New (apply_input input movie)) = false
  ∧ Errors (ValidateMovie currentYear New (apply_input input movie)) !! "genres"
    = Some "genres most contain at least 1 and no more than 5 items".
Proof.
  intros Hg.
  assert (Hgenres : Movie.Genres (apply_input input movie) = Some []).
  { destruct (apply_input_fields input movie) as (_ & _ & _ & H & _).
    by rewrite H, Hg. }
  assert (Hrec : Errors (ValidateMovie currentYear New (apply_input input movie))
                 !! "genres"
                 = Some "genres most contain at least 1 and no more than 5 items").
  { unfold ValidateMovie. cbv zeta. rewrite Hgenres.
    change (default [] (Some [])) with (@nil string).
    apply Check_lookup_kept.
    rewrite (bool_decide_eq_true_2 (Some (@nil string) ≠ None)) by done.
    unfold Check at 1. simpl negb. cbv iota.
    unfold Check at 1. simpl negb. cbv iota.
    unfold AddError.
    rewrite !Check_lookup_other by done.
    change (Errors New !! "genres") with (@None string).
    cbv iota. simpl Errors. apply lookup_insert_eq. }
  split; [|exact Hrec].
  unfold Valid. apply Nat.eqb_neq.
  apply (map_size_ne_0_lookup_2 _ "genres"). eauto.
Qed.

Lemma empty_genres_rejected_witness :
  Valid (ValidateMovie 2024 New
           (apply_input
              {| input_Title := None; input_Year := None; input_Runtime := None;
                 input_Genres := Some [] |} sample_movie)) = false.
Proof.
  apply (empty_genres_rejected 2024
           {| input_Title := None; input_Year := None; input_Runtime := None;
              input_Genres := Some [] |} sample_movie).
  reflexivity.
Defined.

(** X20.  A request that fails validation is answered 422 with the
    errors of the validator.  No [UPDATE] is sent for it and the
    database is as the other requests left it. *)
Theorem updateMovieHandler_invalid_input (Year : Z → Z)
    (atoi : Z * option error) (input : updateMovieInput)
    (concurrent : DB → DB) (st st1 : State) (id : Z) (movie : Movie.t) :
  readIDParam atoi = ok id →
  MovieModel_Get id st = (ok movie, st1) →
  Valid (ValidateMovie (Year (clock st)) New (apply_input input movie)) = false →
  ∃ st',
    updateMovieHandler Year atoi (ok input) concurrent st
    = (Ret (Some (HTTPError 422
                    (MsgErrors
                       (Errors (ValidateMovie (Year (clock st)) New
                                  (apply_input input movie)))))),
       st')
    ∧ db st' = concurrent (db st)
    ∧ updates (queries st') = updates (queries st).
Proof.
  intros Hid Hget Hinvalid.
  destruct (MovieModel_Get_inv _ _ _ _ Hget) as (-> & _).
  unfold updateMovieHandler. rewrite Hid, Hget. simpl. rewrite Hinvalid. simpl.
  eexists. split; [reflexivity|]. split; [done|].
  simpl. rewrite updates_app. simpl. apply app_nil_r.
Qed.

Lemma updateMovieHandler_invalid_input_witness :
  ∃ st',
    fst (updateMovieHandler sample_Year (1, None)
           (ok {| input_Title := Some ""; input_Year := None;
                  input_Runtime := None; input_Genres := None |})
           (fun d => d) (start sample_DB 50 (request None)))
    = Ret (Some (HTTPError 422
                   (MsgErrors {[ "title" := "title must be provided" ]})))
    ∧ db st' = sample_DB.
Proof.
  destruct (updateMovieHandler_invalid_input sample_Year (1, None)
              {| input_Title := Some ""; input_Year := None;
                 input_Runtime := None; input_Genres := None |}
              (fun d => d) (start sample_DB 50 (request None))
              (send (Q_Movies_Get 1) (start sample_DB 50 (request None)))
              1 sample_movie eq_refl eq_refl)
    as (st' & Hrun & Hdb & _).
  - vm_compute. reflexivity.
  - exists st'. split; [|exact Hdb].
    rewrite Hrun. reflexivity.
Defined.

(** X21.  When the store fails, the show, update and delete handlers
    end in the response 500 with the one fixed message: the text of
    the driver's error is not part of the response. *)
Theorem store_failure_is_internal_error (Year : Z → Z)
    (atoi : Z * option error) (bind : result updateMovieInput)
    (concurrent : DB → DB) (st : State) (id : Z) (msg : string) :
  readIDParam atoi = ok id →
  1 ≤ id →
  fault (db st) = Some msg →
  response (ctx st) = None →
  response (ctx (snd (serve (showMovieHandler atoi) st)))
  = Some (500, internal_error_body)
  ∧ response (ctx (snd (serve (updateMovieHandler Year atoi bind concurrent) st)))
    = Some (500, internal_error_body)
  ∧ response (ctx (snd (serve (deleteMovieHandler atoi) st)))
    = Some (500, internal_error_body).
Proof.
  intros Hid Hpos Hfault Hresp.
  assert (Hlt : (id <? 1) = false) by (apply Z.ltb_ge; lia).
  unfold serve, showMovieHandler, updateMovieHandler, deleteMovieHandler,
    MovieModel_Get, MovieModel_Delete, select_movie, delete_movie, statement.
  rewrite Hid, Hlt. simpl. rewrite Hfault. simpl.
  unfold customHTTPErrorHandler. simpl. rewrite Hresp. done.
Qed.

Lemma store_failure_is_internal_error_witness :
  response
    (ctx (snd (serve (showMovieHandler (1, None))
                 (start (failing_DB "dial tcp: connection refused") 50
                    (request None)))))
  = Some (500, internal_error_body).
Proof.
  apply (store_failure_is_internal_error sample_Year (1, None) (ok sample_input)
           (fun d => d)
           (start (failing_DB "dial tcp: connection refused") 50 (request None))
           1 "dial tcp: connection refused"); [reflexivity | lia | reflexivity..].
Defined.

(** X22.  Behind no authenticator, that is with nothing stored under
    ["user"] in the context, both gates panic at the type assertion:
    nothing of the state changes, no query is sent and the rest of
    the chain does not run. *)
Theorem gate_without_identity_panics (permission : string)
    (next : HandlerFunc) (st : State) :
  store (ctx st) !! "user" = None →
  ∃ p, RequireActivatedUser next st = (Panic p, st)
       ∧ RequirePermission permission next st = (Panic p, st).
Proof.
  intros H. unfold RequirePermission, RequireActivatedUser, c_Get_user.
  rewrite H. eauto.
Qed.

Lemma gate_without_identity_panics_witness :
  ∃ p, RequirePermission "movies:read" accept
         (start sample_DB 50 (request None))
       = (Panic p, start sample_DB 50 (request None)).
Proof.
  destruct (gate_without_identity_panics "movies:read" accept
              (start sample_DB 50 (request None)) eq_refl) as (p & _ & H).
  by exists p.
Defined.

(** X23.  A task that returns, and a task that panics with a string,
    leave the process running; the string is logged, once.  In every
    case, the one of a panic that is not contained too, the deferred
    [Done] runs: the counter that [background] had moved up by one is
    moved down by one. *)
Theorem background_contains_string_panic (fn : Task) (st0 st : State) :
  wg (snd (background fn st0)) = wg st0 + 1
  ∧ wg (snd (fst (background fn st0) st)) = wg (snd (fn st)) - 1
  ∧ (∀ st1, fn st = (Ret tt, st1) →
       run_goroutine (fst (background fn st0)) st = Running (wg_Add (-1) st1)
       ∧ logger (wg_Add (-1) st1) = logger st1)
  ∧ (∀ st1 s, fn st = (Panic (any_string s), st1) →
       run_goroutine (fst (background fn st0)) st
       = Running (wg_Add (-1) (logger_Error s st1))
       ∧ logger (wg_Add (-1) (logger_Error s st1)) = (logger st1 ++ [s])%list).
Proof.
  split; [done|]. split; [|split].
  - unfold background, background_goroutine. simpl.
    destruct (fn st) as [[[]|[s|e|m]] st1]; simpl; lia.
  - intros st1 H. split; [|done].
    unfold run_goroutine, background, background_goroutine. simpl.
    by rewrite H.
  - intros st1 s H. split; [|done].
    unfold run_goroutine, background, background_goroutine. simpl.
    by rewrite H.
Qed.

Lemma background_contains_string_panic_witness :
  run_goroutine
    (fst (background (string_panicking_task "boom")
            (start sample_DB 50 (request None))))
    (start sample_DB 50 (request None))
  = Running (wg_Add (-1)
               (logger_Error "boom" (start sample_DB 50 (request None)))).
Proof.
  destruct (background_contains_string_panic (string_panicking_task "boom")
              (start sample_DB 50 (request None))
              (start sample_DB 50 (request None))) as (_ & _ & _ & H).
  apply (H _ "boom" eq_refl).
Defined.

(** X24.  [ValidPlainText] panics on a nil pointer: the finding of
    its own nil check, ["password cannot be null"], is never part of
    a validator it returns.  On a pointer that is not nil it returns,
    and the validator is valid exactly when the text is not empty. *)
Theorem ValidPlainText_nil_panics :
  (∀ v, ∃ p, ValidPlainText v None = Panic p)
  ∧ (∀ plaintext v',
       ValidPlainText New plaintext = Ret v' →
       Errors v' !! "password" ≠ Some "password cannot be null"
       ∧ ∃ text, plaintext = Some text
                 ∧ (Valid v' = true ↔ text ≠ ""))
  ∧ (∀ text, ∃ v', ValidPlainText New (Some text) = Ret v').
Proof.
  split; [|split].
  - intros v. unfold ValidPlainText. eauto.
  - intros [text|] v'; [|discriminate]. unfold ValidPlainText.
    intros [= <-].
    destruct (String.eqb_spec text "") as [->|Hne].
    + split; [by vm_compute|]. exists "". split; [done|].
      split; [by vm_compute | done].
    + split; [by vm_compute|]. exists text. split; [done|].
      split; [done | reflexivity].
  - intros text. unfold ValidPlainText. eauto.
Qed.
